(** * pyxem.signals.indexation_results

    A shallow embedding of [src/pyxem/signals/indexation_results.py]:
    the per-pixel reducer [crystal_from_vector_matching], the template
    selector [_get_best_match], the two [to_crystal_map] methods and
    [get_indexed_diffraction_vectors].

    Conventions of the embedding.
    - A Python [float] is a rational of [Q]: the reliability formulas are
      kept as the arithmetic expressions the source writes, rounding is
      outside the model, and a division by zero raises, as it does for
      Python floats.
    - A call either returns or raises: [result].
    - The metrics [dict] is a [gmap string metric]; the reducer's body runs
      in a small monad that threads this dictionary and the exception.
    - Objects that are passed by reference live in a store, a [gmap] from
      references to objects.
    - [get_nth_best_solution] is imported from
      [pyxem.utils.indexation_utils]: the reducer takes it as a parameter
      and is linked against a model of it that follows the spec. *)

From stdpp Require Import base gmap strings list.
From Stdlib Require Import QArith Lqa.

Local Open Scope Q_scope.

(** ** Exceptions and results *)

Inductive exn : Type :=
| IndexError
| ZeroDivisionError
| AttributeError
| NameError (name : string)
| ValueError (msg : string).

Inductive result (A : Type) : Type :=
| Ok (a : A)
| Raise (e : exn).

Arguments Ok {A} a.
Arguments Raise {A} e.

Definition raises {A} (r : result A) : Prop := ∃ e, r = Raise e.

Definition rbind {A B} (r : result A) (k : A → result B) : result B :=
  match r with
  | Ok a => k a
  | Raise e => Raise e
  end.

(** ** Python floats *)

(** Truthiness of a float: [x or 1.0] is [1.0] exactly when [x == 0]. *)
Definition py_or (x d : Q) : Q := if Qeq_bool x 0 then d else x.

(** [a / b] on builtin Python floats: a zero divisor raises.  (With
    [numpy.float64] operands the quotient would be [nan] or [inf]; the
    statements below either have a non-zero divisor or concern builtin
    floats.) *)
Definition py_div (a b : Q) : result Q :=
  if Qeq_bool b 0 then Raise ZeroDivisionError else Ok (a / b).

(** ** Match candidates (the [OrientationResult] records read by the reducer) *)

Record MatchCandidate : Type := {
  phase_index : Z;
  rotation_matrix : list (list Q);
  match_rate : Q;
  error_hkls : list Q;
  total_error : Q
}.

(** The value of [np.rad2deg(mat2euler(R, axes))]: both functions are
    external (numpy, transforms3d) and stay uninterpreted. *)
Inductive euler_deg : Type :=
| rad2deg_mat2euler (R : list (list Q)) (axes : string).

(** What an object array can hold here: a candidate, or another array. *)
#[warnings="-register-all"]
Inductive pyval : Type :=
| Cand (m : MatchCandidate)
| Arr (l : list pyval).

(** A MatchSet handed over as an object array of shape [(m,)] ... *)
Definition flat (ms : list MatchCandidate) : list pyval := map Cand ms.
(** ... or as the array of shape [(1,)] that holds that array. *)
Definition wrapped (ms : list MatchCandidate) : list pyval := [Arr (map Cand ms)].

(** Lines 53-54: [if z_matches.shape == (1,): z_matches = z_matches[0]]. *)
Definition unwrap (z : list pyval) : pyval :=
  match z with
  | [e] => e
  | _ => Arr z
  end.

Definition as_candidate (v : pyval) : result MatchCandidate :=
  match v with
  | Cand m => Ok m
  | Arr _ => Raise AttributeError
  end.

Fixpoint all_candidates (l : list pyval) : result (list MatchCandidate) :=
  match l with
  | [] => Ok []
  | v :: l' =>
      rbind (as_candidate v) (λ m,
      rbind (all_candidates l') (λ ms, Ok (m :: ms)))
  end.

(** [for match in z_matches] together with the attribute reads
    [match.phase_index], [match.total_error]: every element has to be a
    candidate record.  Iterating a lone record yields its fields, which
    carry no such attribute. *)
Definition candidates (v : pyval) : result (list MatchCandidate) :=
  match v with
  | Arr l => all_candidates l
  | Cand _ => Raise AttributeError
  end.

(** ** [sorted(..., key=attrgetter("total_error"), reverse=False)] *)

Definition lt_error (a b : MatchCandidate) : bool :=
  negb (Qle_bool (total_error b) (total_error a)).

(** [x] goes in front of the first element that is not strictly smaller. *)
Fixpoint insert_sorted (x : MatchCandidate) (l : list MatchCandidate)
  : list MatchCandidate :=
  match l with
  | [] => [x]
  | y :: l' => if lt_error y x then y :: insert_sorted x l' else x :: y :: l'
  end.

(** Python's [sorted] is stable; on a list it is the stable insertion sort. *)
Fixpoint sorted (l : list MatchCandidate) : list MatchCandidate :=
  match l with
  | [] => []
  | x :: l' => insert_sorted x (sorted l')
  end.

(** [lst[i]] for a non-negative index. *)
Definition index {A} (l : list A) (i : nat) : result A :=
  match l !! i with
  | Some a => Ok a
  | None => Raise IndexError
  end.

(** Modelled from the spec: [get_nth_best_solution] of
    [pyxem.utils.indexation_utils], whose source is missing.  The spec has
    the call with [rank=0] give the candidate of globally minimal
    [total_error], ties broken by first-encountered in input order, and the
    call with [rank=1] give the globally second-best candidate, rank 1 by
    [total_error] ignoring phase: the entry at position [rank] of the pool
    in stable ascending order of [total_error].  A rank the pool does not
    reach has no candidate, which is the failure of the list indexing the
    reducer itself uses at lines 82 and 94.  (The arguments are fixed at the
    two call sites: mode ["vector"], key ["total_error"], ascending.) *)
Definition get_nth_best_solution (single_match_result : pyval) (rank : nat)
  : result MatchCandidate :=
  rbind (candidates single_match_result) (λ pool, index (sorted pool) rank).

(** ** State and exception

    A computation starts from a state and leaves the state as it is when
    the computation returns or raises.  The reducer threads its local
    [metrics] dict, the methods thread the objects they are handed. *)

Definition M (S A : Type) : Type := S → S * result A.

Definition ret {S A} (a : A) : M S A := λ s, (s, Ok a).

Definition bind {S A B} (c : M S A) (k : A → M S B) : M S B :=
  λ s, match c s with
       | (s', Ok a) => k a s'
       | (s', Raise e) => (s', Raise e)
       end.

Definition lift {S A} (r : result A) : M S A := λ s, (s, r).

(** [raise e] *)
Definition throw {S A} (e : exn) : M S A := λ s, (s, Raise e).

Definition get_state {S} : M S S := λ s, (s, Ok s).

Definition modify {S} (f : S → S) : M S unit := λ s, (f s, Ok tt).

Notation "x <- c ;; k" := (bind c (λ x, k))
  (at level 62, c at next level, right associativity).
Notation "c ;;; k" := (bind c (λ _, k))
  (at level 62, right associativity).

(** ** [crystal_from_vector_matching] *)

Inductive metric : Type :=
| MFloat (q : Q)
| MArray (l : list Q).

(** [metrics[key] = v] *)
Definition setitem (key : string) (v : metric) : M (gmap string metric) unit :=
  modify (λ d, <[key := v]> d).

(** [results_array]: phase, Euler angles in degrees, metrics. *)
Record PixelResult : Type := {
  res_phase : Z;
  res_euler : euler_deg;
  res_metrics : gmap string metric
}.

(** The reliability percentage [100 * (1 - a / b)]. *)
Definition reliability (a b : Q) : result Q :=
  rbind (py_div a b) (λ q, Ok (100 * (1 - q))).

(** The imported [get_nth_best_solution] as the reducer calls it: the
    pool and the rank (mode ["vector"], key ["total_error"], ascending). *)
Definition nth_best_solver : Type := pyval → nat → result MatchCandidate.

Section Reducer.

(** The import of line 28. *)
Variable nth_best : nth_best_solver.

(** Lines 74-99: [phase_reliability] when another phase is present, and
    the choice of [second_match]. *)
Definition second_match_of (z_matches : pyval) (best_match : MatchCandidate)
  : M (gmap string metric) MatchCandidate :=
  ms <- lift (candidates z_matches) ;;
  let other_phase_matches :=
    filter (λ m, phase_index m ≠ phase_index best_match) ms in
  match other_phase_matches with
  | _ :: _ =>
      second_best_phase <- lift (index (sorted other_phase_matches) 0) ;;
      r <- lift (reliability (total_error best_match)
                             (total_error second_best_phase)) ;;
      setitem "phase_reliability" (MFloat r) ;;;
      let same_phase_matches :=
        filter (λ m, phase_index m = phase_index best_match) ms in
      lift (index (sorted same_phase_matches) 1)
  | [] =>
      lift (nth_best z_matches 1%nat)
  end.

(** Lines 53-99: everything before [orientation_reliability]; the result is
    the pair of [best_match] and [second_match]. *)
Definition select (z : list pyval)
  : M (gmap string metric) (MatchCandidate * MatchCandidate) :=
  let z_matches := unwrap z in
  best_match <- lift (nth_best z_matches 0%nat) ;;
  setitem "match_rate" (MFloat (match_rate best_match)) ;;;
  setitem "ehkls" (MArray (error_hkls best_match)) ;;;
  setitem "total_error" (MFloat (total_error best_match)) ;;;
  second_match <- second_match_of z_matches best_match ;;
  ret (best_match, second_match).

(** The body of [crystal_from_vector_matching], lines 53-107. *)
Definition crystal_from_vector_matching_body (z : list pyval)
  : M (gmap string metric) PixelResult :=
  bs <- select z ;;
  let best_match := bs.1 in
  let second_match := bs.2 in
  r <- lift (reliability (total_error best_match)
                         (py_or (total_error second_match) 1)) ;;
  setitem "orientation_reliability" (MFloat r) ;;;
  metrics <- get_state ;;
  ret {| res_phase := phase_index best_match;
         res_euler := rad2deg_mat2euler (rotation_matrix best_match) "rzxz";
         res_metrics := metrics |}.

(** [metrics = dict()]: the body starts from the empty dictionary.  The
    first component is the dictionary as the call leaves it, the second is
    what the caller gets. *)
Definition run_reducer (z : list pyval) : gmap string metric * result PixelResult :=
  crystal_from_vector_matching_body z ∅.

Definition crystal_from_vector_matching (z : list pyval) : result PixelResult :=
  (run_reducer z).2.

(** The [metrics] dict as the body has built it when the call ends. *)
Definition metrics_built (z : list pyval) : gmap string metric :=
  (run_reducer z).1.

(** [best_match] and [second_match] as lines 53-99 choose them. *)
Definition selection (z : list pyval) : result (MatchCandidate * MatchCandidate) :=
  (select z ∅).2.

End Reducer.

(** ** [_get_best_match] *)

(** A 2-D float array is the list of its rows. *)
Definition has_shape (z : list (list Q)) (rows cols : nat) : Prop :=
  length z = rows ∧ Forall (λ row, length row = cols) z.

Definition Qlt_bool (a b : Q) : bool := negb (Qle_bool b a).

(** [np.argmax]: the first position of the largest entry. *)
Fixpoint argmax_from (best_i : nat) (best : Q) (i : nat) (l : list Q) : nat :=
  match l with
  | [] => best_i
  | v :: l' =>
      if Qlt_bool best v then argmax_from i v (S i) l'
      else argmax_from best_i best (S i) l'
  end.

Definition argmax (l : list Q) : result nat :=
  match l with
  | [] => Raise (ValueError "attempt to get argmax of an empty sequence")
  | v :: l' => Ok (argmax_from 0 v 1 l')
  end.

(** [z[-1, :]] *)
Definition last_row (z : list (list Q)) : result (list Q) :=
  match last z with
  | Some row => Ok row
  | None => Raise IndexError
  end.

Fixpoint mapM {A B} (f : A → result B) (l : list A) : result (list B) :=
  match l with
  | [] => Ok []
  | a :: l' => rbind (f a) (λ b, rbind (mapM f l') (λ bs, Ok (b :: bs)))
  end.

(** [z[:, j]] *)
Definition column (z : list (list Q)) (j : nat) : result (list Q) :=
  mapM (λ row, index row j) z.

(** Line 169: [return z[:, np.argmax(z[-1, :])]]. *)
Definition _get_best_match (z : list (list Q)) : result (list Q) :=
  rbind (last_row z) (λ score,
  rbind (argmax score) (λ j, column z j)).

(** ** Crystal maps *)

(** [Rotation.from_euler(euler, convention=..., direction=...)] of orix,
    external and uninterpreted. *)
Inductive rotations : Type :=
| from_euler (euler : list (Q * Q * Q)) (convention direction : string).

(** The arguments handed to the external [CrystalMap] constructor. *)
Record CrystalMap : Type := {
  cm_rotations : rotations;
  cm_phase_id : list Q;
  cm_x : list nat;
  cm_y : list nat;
  cm_prop : gmap string (list metric)
}.

(** [np.indices((h, w))]: two grids of shape [(h, w)], the first holding
    the row index of each cell and the second its column index. *)
Definition np_indices (shape : nat * nat) : list (list nat) * list (list nat) :=
  let '(h, w) := shape in
  (map (λ r, map (λ _, r) (seq 0 w)) (seq 0 h),
   map (λ _, map (λ c, c) (seq 0 w)) (seq 0 h)).

(** [a.flatten()] of a 2-D array, row-major. *)
Definition flatten {A} (a : list (list A)) : list A := concat a.

(** Lines 194-196. *)
Definition navigation_x (shape : nat * nat) : list nat := flatten (np_indices shape).2.
Definition navigation_y (shape : nat * nat) : list nat := flatten (np_indices shape).1.

(** [np.vstack((a, b, c)).T] *)
Fixpoint vstack3_T (a b c : list Q) : list (Q * Q * Q) :=
  match a, b, c with
  | x :: a', y :: b', z :: c' => (x, y, z) :: vstack3_T a' b' c'
  | _, _, _ => []
  end.

(** The signal held by a [GenericMatchingResults]: [data.shape[:2]] and the
    per-pixel arrays of shape [(5, n)] in row-major order. *)
Record Signal2D : Type := {
  nav_shape : nat * nat;
  pixels : list (list (list Q))
}.

(** [_s.isig[k].data.flatten()] *)
Definition isig (k : nat) (_s : list (list Q)) : result (list Q) :=
  mapM (λ v, index v k) _s.

(** [GenericMatchingResults.to_crystal_map], lines 184-209. *)
Definition to_crystal_map (self : Signal2D) : result CrystalMap :=
  rbind (mapM _get_best_match (pixels self)) (λ _s,
  rbind (isig 0 _s) (λ phase_id,
  rbind (isig 1 _s) (λ alpha,
  rbind (isig 2 _s) (λ beta,
  rbind (isig 3 _s) (λ gamma,
  rbind (isig 4 _s) (λ score,
  let x := navigation_x (nav_shape self) in
  let y := navigation_y (nav_shape self) in
  let euler := vstack3_T alpha beta gamma in
  let rotations := from_euler euler "bunge" "crystal2lab" in
  let properties : gmap string (list metric) := {[ "score" := map MFloat score ]} in
  Ok {| cm_rotations := rotations;
        cm_phase_id := phase_id;
        cm_x := x;
        cm_y := y;
        cm_prop := properties |})))))).

(** ** [VectorMatchingResults] *)

(** A diffraction-vectors object: its [hkls] attribute is [None] or a
    reference to the Miller indices signal. *)
Record DiffractionVectors : Type := {
  hkls : option nat;
  peaks : list (Q * Q)
}.

Definition set_hkls (h : option nat) (v : DiffractionVectors) : DiffractionVectors :=
  {| hkls := h; peaks := peaks v |}.

Record VectorMatchingResults : Type := {
  vm_shape : nat * nat;
  vm_data : list (list pyval);
  vm_vectors : option nat;
  vm_hkls : option nat
}.

(** What a method can observe and change: the diffraction-vectors objects
    by reference, the warnings issued, and how often the signal's data has
    been read. *)
Record world : Type := {
  objects : gmap nat DiffractionVectors;
  warnings : list string;
  data_reads : nat
}.

(** [warn(msg)] *)
Definition warn (msg : string) : M world unit :=
  modify (λ w, {| objects := objects w;
                  warnings := warnings w ++ [msg];
                  data_reads := data_reads w |}).

(** Reading [self.data], as [self.map] does. *)
Definition read_data (self : VectorMatchingResults) : M world (list (list pyval)) :=
  modify (λ w, {| objects := objects w;
                  warnings := warnings w;
                  data_reads := S (data_reads w) |}) ;;;
  ret (vm_data self).

(** [obj.hkls]; a reference that names no object has no attribute to read. *)
Definition getattr_hkls (obj : nat) : M world (option nat) :=
  w <- get_state ;;
  match objects w !! obj with
  | Some v => ret (hkls v)
  | None => throw AttributeError
  end.

(** [obj.hkls = h] *)
Definition setattr_hkls (obj : nat) (h : option nat) : M world unit :=
  modify (λ w, {| objects := alter (set_hkls h) obj (objects w);
                  warnings := warnings w;
                  data_reads := data_reads w |}).

(** The nested helpers of the unfinished method read names that are bound
    nowhere ([d] at line 295, [z] at line 309). *)
Definition _map_to_get_property (prop : string) (px : PixelResult) : result metric :=
  Raise (NameError "d").
Definition _map_for_alpha_beta_gamma (ix : nat) (px : PixelResult) : result Q :=
  Raise (NameError "z").

(** [VectorMatchingResults.to_crystal_map], lines 284-328: the [raise] is
    the first statement, the rest of the body follows it. *)
Definition VectorMatchingResults_to_crystal_map (self : VectorMatchingResults)
  : M world CrystalMap :=
  throw (A := unit) (ValueError "Currently under development") ;;;
  data <- read_data self ;;
  _s <- lift (mapM (crystal_from_vector_matching get_nth_best_solution) data) ;;
  let phase_id := map (λ px, inject_Z (res_phase px)) _s in
  first <- lift (index _s 0) ;;
  let key_list := (map_to_list (res_metrics first)).*1 in
  properties <- lift (mapM (λ key,
      rbind (mapM (_map_to_get_property key) _s) (λ vs, Ok (key, vs))) key_list) ;;
  alpha <- lift (mapM (_map_for_alpha_beta_gamma 0) _s) ;;
  beta <- lift (mapM (_map_for_alpha_beta_gamma 1) _s) ;;
  gamma <- lift (mapM (_map_for_alpha_beta_gamma 2) _s) ;;
  let euler := vstack3_T alpha beta gamma in
  let rotations := from_euler euler "bunge" "crystal2lab" in
  let x := navigation_x (vm_shape self) in
  let y := navigation_y (vm_shape self) in
  ret {| cm_rotations := rotations;
         cm_phase_id := phase_id;
         cm_x := x;
         cm_y := y;
         cm_prop := list_to_map properties |}.

(** The [overwrite] argument: the test is [is False] / [is True], so any
    other object takes neither branch. *)
Inductive overwrite_arg : Type :=
| PyFalse
| PyTrue
| PyOther.

Definition already_indexed_msg : string :=
  "The vectors supplied are already associated with hkls set overwrite=True to replace these hkls.".

(** [VectorMatchingResults.get_indexed_diffraction_vectors], lines 345-357.
    [vectors] is the reference the caller passes. *)
Definition get_indexed_diffraction_vectors
    (self : VectorMatchingResults) (vectors : nat) (overwrite : overwrite_arg)
  : M world nat :=
  match overwrite with
  | PyFalse =>
      h <- getattr_hkls vectors ;;
      match h with
      | Some _ => warn already_indexed_msg
      | None => setattr_hkls vectors (vm_hkls self)
      end
  | PyTrue => setattr_hkls vectors (vm_hkls self)
  | PyOther => ret tt
  end ;;;
  ret vectors.

(** ** [get_phase_name_and_index] *)

(** [dict(pairs)]: the pairs are stored in order, a later pair replacing an
    earlier one with the same key. *)
Definition py_dict {V} (pairs : list (string * V)) : gmap string V :=
  foldl (λ d kv, <[kv.1 := kv.2]> d) ∅ pairs.

(** Line 124: [dict([(y, x) for x, y in enumerate(list(library.keys()))])];
    the argument is the list of the library's keys, in their order. *)
Definition get_phase_name_and_index (library_keys : list string) : gmap string nat :=
  py_dict (imap (λ x y, (y, x)) library_keys).

(** ** [_peaks_from_best_template] *)

(** [int(x)] of a float: truncation towards zero. *)
Definition py_int (x : Q) : Z := Z.quot (Qnum x) (Z.pos (Qden x)).

(** [lst[i]] for any integer: a negative index counts from the end. *)
Definition py_getitem {A} (l : list A) (i : Z) : result A :=
  let n := Z.of_nat (length l) in
  if decide (0 ≤ i < n)%Z then index l (Z.to_nat i)
  else if decide (- n ≤ i < 0)%Z then index l (Z.to_nat (n + i))
  else Raise IndexError.

(** A template match as the function reads it: [best_fit[0]] is the
    phase, [best_fit[1]] the Euler angles. *)
Record TemplateMatch : Type := {
  tm_phase : Q;
  tm_angle : list Q;
  tm_score : Q
}.

(** The diffraction library as the function uses it: [library.keys()] and
    the coordinates of [library.get_library_entry(phase=..., angle=...)["Sim"]],
    an array of shape (M, 3). *)
Record DiffractionLibrary : Type := {
  lib_keys : list string;
  lib_sim_coordinates : string → list Q → result (list (list Q))
}.

Section PeaksFromBestTemplate.

(** An entry of a [TemplateMatchingResults]. *)
Variable Entry : Type.

(** The imported [get_nth_best_solution] in mode ["template"]. *)
Variable nth_best_template : Entry → nat → result TemplateMatch.

(** Lines 146-154. *)
Definition _peaks_from_best_template
    (single_match_result : Entry) (library : DiffractionLibrary) (rank : nat)
  : result (list (list Q)) :=
  rbind (nth_best_template single_match_result rank) (λ best_fit,
  let phase_names := lib_keys library in
  let phase_index := py_int (tm_phase best_fit) in
  rbind (py_getitem phase_names phase_index) (λ phase,
  rbind (lib_sim_coordinates library phase (tm_angle best_fit)) (λ coordinates,
  let peaks := map (take 2) coordinates in
  Ok peaks))).

End PeaksFromBestTemplate.

(** ** [VectorMatchingResults.__init__] *)

(** Lines 269-273: after the signal is set up, [vectors] and [hkls] are
    [None]. *)
Definition VectorMatchingResults_init (shape : nat * nat) (data : list (list pyval))
  : VectorMatchingResults :=
  {| vm_shape := shape; vm_data := data; vm_vectors := None; vm_hkls := None |}.

(** * Vocabulary of the statements *)

(** [x] is in [l] and no entry of [l] has a smaller [total_error]. *)
Definition minimal_in (l : list MatchCandidate) (x : MatchCandidate) : Prop :=
  x ∈ l ∧ ∀ y, y ∈ l → total_error x <= total_error y.

(** In the spec's words: the candidate of minimal [total_error], the first
    encountered among ties. *)
Fixpoint first_min (l : list MatchCandidate) : option MatchCandidate :=
  match l with
  | [] => None
  | x :: l' =>
      match first_min l' with
      | Some y => if lt_error y x then Some y else Some x
      | None => Some x
      end
  end.

(** The order the sort establishes: errors ascend along the list. *)
Inductive ascending : list MatchCandidate → Prop :=
| ascending_nil : ascending []
| ascending_cons x l :
    (∀ y, y ∈ l → total_error x <= total_error y) →
    ascending l → ascending (x :: l).

(** A MatchSet [ms] reaches the reducer as [z]. *)
Definition presents (z : list pyval) (ms : list MatchCandidate) : Prop :=
  z = flat ms ∨ z = wrapped ms.

(** At least two distinct phase indices occur in the MatchSet. *)
Definition distinct_phases (ms : list MatchCandidate) : Prop :=
  ∃ a b, a ∈ ms ∧ b ∈ ms ∧ phase_index a ≠ phase_index b.

(** All candidates of the MatchSet are of one phase. *)
Definition single_phase (ms : list MatchCandidate) : Prop :=
  ∀ a b, a ∈ ms → b ∈ ms → phase_index a = phase_index b.

(** The three entries every call stores first (lines 70-72). *)
Definition base_metrics (b : MatchCandidate) : gmap string metric :=
  <["total_error" := MFloat (total_error b)]>
    (<["ehkls" := MArray (error_hkls b)]>
       (<["match_rate" := MFloat (match_rate b)]> ∅)).

(** The dictionary after [orientation_reliability] is stored. *)
Definition with_orientation (b s : MatchCandidate) (d : gmap string metric)
  : gmap string metric :=
  <["orientation_reliability" :=
      MFloat (100 * (1 - total_error b / py_or (total_error s) 1))]> d.

(** [j] is the first position of a largest entry of [l]. *)
Definition first_max (l : list Q) (j : nat) : Prop :=
  ∃ s, l !! j = Some s ∧
       (∀ k v, l !! k = Some v → v <= s) ∧
       (∀ k v, (k < j)%nat → l !! k = Some v → v < s).

(** ** The spec's scenarios *)

(** A candidate with the given phase and [total_error]; the other fields
    play no part in the selection. *)
Definition candidate (phase : Z) (err : Q) : MatchCandidate :=
  {| phase_index := phase;
     rotation_matrix := [[1; 0; 0]; [0; 1; 0]; [0; 0; 1]];
     match_rate := 1;
     error_hkls := [];
     total_error := err |}.

(** Scenario A: two candidates of phase 0, one of phase 1. *)
Definition scenario_A : list MatchCandidate :=
  [candidate 0 0.10; candidate 0 0.30; candidate 1 0.20].

(** Scenario B: a single candidate. *)
Definition scenario_B : list MatchCandidate := [candidate 0 0.10].

(** The best phase has one candidate and another phase is present. *)
Definition lone_best : list MatchCandidate :=
  [candidate 0 0.10; candidate 1 0.20].

(** Two candidates of one phase that match without error. *)
Definition exact_pair : list MatchCandidate := [candidate 0 0; candidate 0 0].

(** Two phases that both hold a candidate without error. *)
Definition zero_cross : list MatchCandidate :=
  [candidate 0 0; candidate 0 0.5; candidate 1 0].

(** Scenario C: one pixel of template matching results. *)
Definition scenario_C : list (list Q) :=
  [[0; 1]; [10; 20]; [5; 15]; [1; 2]; [0.8; 0.95]].

Definition scan_1x2 : Signal2D :=
  {| nav_shape := (1%nat, 2%nat); pixels := [scenario_C; scenario_C] |}.

Definition indexed_vectors : DiffractionVectors :=
  {| hkls := Some 7%nat; peaks := [] |}.

Definition fresh_vectors : DiffractionVectors :=
  {| hkls := None; peaks := [] |}.

Definition results_with_hkls : VectorMatchingResults :=
  {| vm_shape := (1%nat, 1%nat); vm_data := [wrapped scenario_A];
     vm_vectors := None; vm_hkls := Some 3%nat |}.

(** A world whose only object, at reference 0, is [v]. *)
Definition world_of (v : DiffractionVectors) : world :=
  {| objects := {[ 0%nat := v ]}; warnings := []; data_reads := 0 |}.

(** A library of two phases whose every entry simulates two spots. *)
Definition two_phase_library : DiffractionLibrary :=
  {| lib_keys := ["ferrite"; "austenite"];
     lib_sim_coordinates := λ _ _, Ok [[1; 2; 3]; [4; 5; 6]] |}.

(** A helper that always answers with the given phase entry. *)
Definition fit_of_phase (p : Q) : unit → nat → result TemplateMatch :=
  λ _ _, Ok {| tm_phase := p; tm_angle := [0; 0; 0]; tm_score := 1 |}.

(** A pixel of template matching results: five rows and at least one
    match. *)
Definition pixel_ok (px : list (list Q)) : Prop :=
  ∃ n, has_shape px 5 n ∧ (0 < n)%nat.

(** The keys a metrics dict can hold. *)
Definition metric_keys : list string :=
  ["match_rate"; "ehkls"; "total_error"; "phase_reliability";
   "orientation_reliability"].

(** * Properties *)

(** ** Sorting by [total_error] *)

Lemma lt_error_true a b :
  lt_error a b = true ↔ total_error a < total_error b.
Proof.
  unfold lt_error. rewrite negb_true_iff. split.
  - intros H. apply Qnot_le_lt. intros Hle.
    apply Qle_bool_iff in Hle. congruence.
  - intros H. destruct (Qle_bool _ _) eqn:E; [|done].
    apply Qle_bool_iff in E. exfalso. by apply (Qlt_not_le _ _ H).
Qed.

Lemma lt_error_false a b :
  lt_error a b = false ↔ total_error b <= total_error a.
Proof.
  unfold lt_error. rewrite negb_false_iff. apply Qle_bool_iff.
Qed.

Lemma insert_sorted_perm x l : insert_sorted x l ≡ₚ x :: l.
Proof.
  induction l as [|y l IH]; simpl; [done|].
  destruct (lt_error y x); [|done].
  rewrite IH. apply Permutation_swap.
Qed.

Lemma sorted_perm l : sorted l ≡ₚ l.
Proof.
  induction l as [|x l IH]; simpl; [done|].
  by rewrite insert_sorted_perm, IH.
Qed.

Lemma sorted_length l : length (sorted l) = length l.
Proof. by rewrite sorted_perm. Qed.

Lemma sorted_elem_of l x : x ∈ sorted l ↔ x ∈ l.
Proof. by rewrite sorted_perm. Qed.

Lemma sorted_nil_inv l : sorted l = [] → l = [].
Proof.
  intros H. apply (f_equal length) in H. rewrite sorted_length in H.
  by destruct l.
Qed.

Lemma insert_sorted_ascending x l :
  ascending l → ascending (insert_sorted x l).
Proof.
  induction 1 as [|y l Hy Hl IH]; simpl.
  - constructor; [|constructor]. intros y Hin. by apply elem_of_nil in Hin.
  - destruct (lt_error y x) eqn:E.
    + constructor; [|done].
      intros z Hz. rewrite insert_sorted_perm in Hz.
      apply elem_of_cons in Hz as [->|Hz]; [|by apply Hy].
      apply Qlt_le_weak. by apply lt_error_true.
    + apply lt_error_false in E.
      constructor; [|by constructor].
      intros z Hz. apply elem_of_cons in Hz as [->|Hz]; [done|].
      eapply Qle_trans; [exact E|by apply Hy].
Qed.

Lemma sorted_ascending l : ascending (sorted l).
Proof.
  induction l; simpl; [constructor|by apply insert_sorted_ascending].
Qed.

Lemma head_insert_sorted x l :
  head (insert_sorted x l) =
  match head l with
  | Some y => if lt_error y x then Some y else Some x
  | None => Some x
  end.
Proof. destruct l as [|y l]; simpl; [done|]. by destruct (lt_error y x). Qed.

(** Rank 0 of the sorted pool is the spec's best candidate. *)
Lemma head_sorted_first_min l : head (sorted l) = first_min l.
Proof.
  induction l as [|x l IH]; simpl; [done|].
  by rewrite head_insert_sorted, IH.
Qed.

Lemma head_sorted_minimal l x : head (sorted l) = Some x → minimal_in l x.
Proof.
  intros H. pose proof (sorted_ascending l) as Ha.
  destruct (sorted l) as [|y s] eqn:E; simplify_eq/=.
  assert (Hx : x ∈ l) by (apply sorted_elem_of; rewrite E; left).
  split; [done|]. intros y Hy.
  apply sorted_elem_of in Hy. rewrite E in Hy.
  inversion Ha as [|? ? Hmin _]; subst.
  apply elem_of_cons in Hy as [->|Hy]; [apply Qle_refl|by apply Hmin].
Qed.

(** Ties go to the candidate met first: everything in front of the best
    candidate is strictly worse. *)
Lemma first_min_first l x :
  first_min l = Some x →
  ∃ l1 l2, l = l1 ++ x :: l2 ∧ ∀ y, y ∈ l1 → total_error x < total_error y.
Proof.
  revert x. induction l as [|a l IH]; intros x H; simpl in H; [done|].
  destruct (first_min l) as [y|] eqn:E.
  - destruct (lt_error y a) eqn:Hlt; simplify_eq.
    + destruct (IH x eq_refl) as (l1 & l2 & -> & Hl1).
      exists (a :: l1), l2. split; [done|].
      intros z Hz. apply elem_of_cons in Hz as [->|Hz]; [|by apply Hl1].
      by apply lt_error_true.
    + exists [], l. split; [done|]. intros z Hz. by apply elem_of_nil in Hz.
  - simplify_eq. exists [], l. split; [done|].
    intros z Hz. by apply elem_of_nil in Hz.
Qed.

(** ** The reducer *)

Ltac unfold_monad :=
  unfold bind, lift, ret, throw, setitem, modify, get_state in *.

Lemma all_candidates_map ms : all_candidates (map Cand ms) = Ok ms.
Proof. induction ms as [|m ms IH]; simpl; [done|]. by rewrite IH. Qed.

Lemma candidates_Arr ms : candidates (Arr (map Cand ms)) = Ok ms.
Proof. apply all_candidates_map. Qed.

Lemma unwrap_wrapped ms : unwrap (wrapped ms) = Arr (map Cand ms).
Proof. done. Qed.

Lemma unwrap_flat ms : length ms ≠ 1%nat → unwrap (flat ms) = Arr (map Cand ms).
Proof. destruct ms as [|a [|b ms]]; done. Qed.

Lemma unwrap_flat_single m : unwrap (flat [m]) = Cand m.
Proof. done. Qed.

(** Line 54 turns a one-candidate array of shape (1,) into the candidate;
    every other presentation reaches the selection as the pool. *)
Lemma presents_cases z ms :
  presents z ms →
  (∃ m, ms = [m] ∧ z = flat [m]) ∨ unwrap z = Arr (map Cand ms).
Proof.
  intros [-> | ->]; [|by right].
  destruct (decide (length ms = 1%nat)) as [H1|H1].
  - left. destruct ms as [|m [|m' ms]]; simplify_eq/=. by exists m.
  - right. by apply unwrap_flat.
Qed.

Lemma unwrap_presents z ms :
  presents z ms → length ms ≠ 1%nat → unwrap z = Arr (map Cand ms).
Proof.
  intros Hz Hlen. destruct (presents_cases _ _ Hz) as [(m & -> & _)|H]; done.
Qed.

Lemma index_0_head {A} (l : list A) :
  index l 0 = match head l with Some a => Ok a | None => Raise IndexError end.
Proof. by destruct l. Qed.

Lemma py_or_nonzero x : Qeq_bool (py_or x 1) 0 = false.
Proof. unfold py_or. destruct (Qeq_bool x 0) eqn:E; done. Qed.

(** The guarded division of line 102 never divides by zero. *)
Lemma reliability_guarded a x :
  reliability a (py_or x 1) = Ok (100 * (1 - a / py_or x 1)).
Proof. unfold reliability, py_div. by rewrite py_or_nonzero. Qed.

(** *** Whatever the imported helper does *)

Section AnyHelper.

Variable nth_best : nth_best_solver.

(** Once [best_match] and [second_match] are chosen the call returns, and
    the dictionary it returns is the one it has built. *)
Lemma run_reducer_after_select z d b s :
  select nth_best z ∅ = (d, Ok (b, s)) →
  run_reducer nth_best z =
    (with_orientation b s d,
     Ok {| res_phase := phase_index b;
           res_euler := rad2deg_mat2euler (rotation_matrix b) "rzxz";
           res_metrics := with_orientation b s d |}).
Proof.
  intros H. unfold run_reducer, crystal_from_vector_matching_body.
  unfold bind at 1. rewrite H. simpl.
  unfold bind at 1. unfold lift at 1. rewrite reliability_guarded.
  done.
Qed.

Lemma run_reducer_select_raises z d e :
  select nth_best z ∅ = (d, Raise e) → run_reducer nth_best z = (d, Raise e).
Proof.
  intros H. unfold run_reducer, crystal_from_vector_matching_body.
  unfold bind at 1. by rewrite H.
Qed.

(** The dictionary a returning call hands back is the dictionary built. *)
Lemma returned_metrics z r :
  crystal_from_vector_matching nth_best z = Ok r →
  res_metrics r = metrics_built nth_best z.
Proof.
  unfold crystal_from_vector_matching, metrics_built.
  destruct (select nth_best z ∅) as [d [[b s]|e]] eqn:E.
  - rewrite (run_reducer_after_select _ _ _ _ E). simpl. by intros [= <-].
  - rewrite (run_reducer_select_raises _ _ _ E). done.
Qed.

(** Lines 101-103 are unconditional: a returning call always carries
    [orientation_reliability]. *)
Lemma returned_has_orientation_reliability z r :
  crystal_from_vector_matching nth_best z = Ok r →
  is_Some (res_metrics r !! "orientation_reliability").
Proof.
  unfold crystal_from_vector_matching.
  destruct (select nth_best z ∅) as [d [[b s]|e]] eqn:E.
  - rewrite (run_reducer_after_select _ _ _ _ E). simpl. intros [= <-]. simpl.
    unfold with_orientation. rewrite lookup_insert_eq. by eexists.
  - rewrite (run_reducer_select_raises _ _ _ E). done.
Qed.

Lemma returns_or_raises z :
  raises (crystal_from_vector_matching nth_best z) ∨
  ∃ r, crystal_from_vector_matching nth_best z = Ok r ∧
       is_Some (res_metrics r !! "orientation_reliability").
Proof.
  destruct (crystal_from_vector_matching nth_best z) as [r|e] eqn:E.
  - right. exists r. split; [done|].
    by apply (returned_has_orientation_reliability z).
  - left. by exists e.
Qed.

(** An array of shape (1,) holding one candidate: line 54 hands the
    candidate itself to the rest of the body, and if the helper gets past
    it the comprehension of line 75 does not. *)
Lemma lone_record_raises m :
  raises (crystal_from_vector_matching nth_best (flat [m])).
Proof.
  unfold crystal_from_vector_matching, run_reducer,
    crystal_from_vector_matching_body, select, second_match_of.
  simpl. unfold_monad.
  destruct (nth_best (Cand m) 0%nat) as [b|e]; simpl; by eexists.
Qed.

Lemma metrics_built_select z d r :
  select nth_best z ∅ = (d, r) →
  (d = metrics_built nth_best z ∧ raises r) ∨
  (∃ v, metrics_built nth_best z = <["orientation_reliability" := v]> d).
Proof.
  intros H. unfold metrics_built. destruct r as [[b s]|e].
  - right. rewrite (run_reducer_after_select _ _ _ _ H). by eexists.
  - left. rewrite (run_reducer_select_raises _ _ _ H). split; [done|by eexists].
Qed.

Lemma metrics_built_lookup z d r k :
  select nth_best z ∅ = (d, r) → k ≠ "orientation_reliability" →
  metrics_built nth_best z !! k = d !! k.
Proof.
  intros H Hk. destruct (metrics_built_select _ _ _ H) as [[<- _]|[v ->]]; [done|].
  by rewrite lookup_insert_ne.
Qed.

(** C4: when the candidate chosen as [second_match] has [total_error]
    zero, the denominator is 1.0 and the call returns with
    [orientation_reliability = 100 * (1 - best.total_error / 1.0)];
    otherwise it returns with [100 * (1 - best.total_error /
    second_match.total_error)].  The call returns in both cases, so no
    division by zero is raised. *)
Theorem orientation_reliability_zero_guard
    (z : list pyval) (best second : MatchCandidate) :
  selection nth_best z = Ok (best, second) →
  ∃ r, crystal_from_vector_matching nth_best z = Ok r ∧
       res_phase r = phase_index best ∧
       (total_error second == 0 →
        res_metrics r !! "orientation_reliability" =
          Some (MFloat (100 * (1 - total_error best / 1)))) ∧
       (¬ total_error second == 0 →
        res_metrics r !! "orientation_reliability" =
          Some (MFloat (100 * (1 - total_error best / total_error second)))).
Proof.
  unfold selection, crystal_from_vector_matching. intros Hsel.
  destruct (select nth_best z ∅) as [d r] eqn:E. simpl in Hsel. subst r.
  rewrite (run_reducer_after_select _ _ _ _ E). eexists. split; [done|]. simpl.
  split; [done|]. unfold with_orientation. rewrite lookup_insert_eq. unfold py_or.
  split; intros Hz.
  - by rewrite (Qeq_eq_bool _ _ Hz).
  - destruct (Qeq_bool (total_error second) 0) eqn:E0; [|done].
    by apply Qeq_bool_eq in E0.
Qed.

End AnyHelper.

Lemma orientation_reliability_zero_guard_witness :
  selection get_nth_best_solution (wrapped exact_pair)
    = Ok (candidate 0 0, candidate 0 0) ∧
  ∃ r, crystal_from_vector_matching get_nth_best_solution (wrapped exact_pair) = Ok r ∧
       res_phase r = 0%Z ∧
       (0 == 0 →
        res_metrics r !! "orientation_reliability" = Some (MFloat (100 * (1 - 0 / 1)))) ∧
       (¬ 0 == 0 →
        res_metrics r !! "orientation_reliability" = Some (MFloat (100 * (1 - 0 / 0)))).
Proof.
  split; [vm_compute; reflexivity|].
  apply (orientation_reliability_zero_guard get_nth_best_solution
           (wrapped exact_pair) (candidate 0 0) (candidate 0 0)).
  vm_compute; reflexivity.
Defined.

(** *** With the helper as the spec has it *)

(** [select] on a pool of candidates, by the cases of the source. *)
Lemma select_pool z ms :
  unwrap z = Arr (map Cand ms) →
  select get_nth_best_solution z ∅ =
    match head (sorted ms) with
    | None => (∅, Raise IndexError)
    | Some b =>
        let others := filter (λ m, phase_index m ≠ phase_index b) ms in
        let same := filter (λ m, phase_index m = phase_index b) ms in
        match head (sorted others) with
        | None =>
            match sorted ms !! 1%nat with
            | Some s => (base_metrics b, Ok (b, s))
            | None => (base_metrics b, Raise IndexError)
            end
        | Some c =>
            if Qeq_bool (total_error c) 0
            then (base_metrics b, Raise ZeroDivisionError)
            else
              let d := <["phase_reliability" :=
                           MFloat (100 * (1 - total_error b / total_error c))]>
                         (base_metrics b) in
              match sorted same !! 1%nat with
              | Some s => (d, Ok (b, s))
              | None => (d, Raise IndexError)
              end
        end
    end.
Proof.
  intros Hz. unfold select. rewrite Hz.
  unfold get_nth_best_solution at 1. rewrite candidates_Arr. simpl.
  rewrite index_0_head. unfold_monad.
  destruct (head (sorted ms)) as [b|]; [|done]. simpl.
  unfold second_match_of. unfold_monad. rewrite candidates_Arr.
  fold (base_metrics b).
  destruct (filter (λ m, phase_index m ≠ phase_index b) ms) as [|o others] eqn:E.
  - simpl. unfold get_nth_best_solution. rewrite candidates_Arr. simpl.
    unfold index. by destruct (sorted ms !! 1%nat).
  - rewrite index_0_head.
    destruct (head (sorted (o :: others))) as [c|] eqn:Hc.
    + unfold reliability, py_div.
      destruct (Qeq_bool (total_error c) 0); [done|]. simpl.
      unfold index.
      by destruct (sorted (filter (λ m, phase_index m = phase_index b) ms) !! 1%nat).
    + exfalso. rewrite head_lookup in Hc.
      destruct (sorted (o :: others)) eqn:Hs; [|done].
      by apply sorted_nil_inv in Hs.
Qed.

Lemma distinct_phases_length ms : distinct_phases ms → length ms ≠ 1%nat.
Proof.
  intros (a & b & Ha & Hb & Hne) Hlen.
  destruct ms as [|m [|m' ms]]; simplify_eq/=.
  apply list_elem_of_singleton in Ha, Hb. congruence.
Qed.

Lemma distinct_phases_other ms b :
  distinct_phases ms →
  filter (λ m, phase_index m ≠ phase_index b) ms ≠ [].
Proof.
  intros (a & a' & Ha & Ha' & Hne) Hnil.
  destruct (decide (phase_index a = phase_index b)) as [Heq|Hab].
  - apply (filter_nil_not_elem_of _ _ a' Hnil); [congruence|done].
  - by apply (filter_nil_not_elem_of _ _ a Hnil).
Qed.

Lemma single_phase_other ms b :
  single_phase ms → b ∈ ms →
  filter (λ m, phase_index m ≠ phase_index b) ms = [].
Proof.
  intros Hs Hb.
  destruct (filter _ ms) as [|o os] eqn:E; [done|].
  assert (Ho : o ∈ filter (λ m, phase_index m ≠ phase_index b) ms)
    by (rewrite E; left).
  apply list_elem_of_filter in Ho as [Hne Ho].
  destruct Hne. by apply Hs.
Qed.

Lemma filter_same_phase_all ms b :
  filter (λ m, phase_index m ≠ phase_index b) ms = [] →
  filter (λ m, phase_index m = phase_index b) ms = ms.
Proof.
  induction ms as [|m ms IH]; [done|].
  rewrite !filter_cons.
  destruct (decide (phase_index m ≠ phase_index b)) as [Hne|Heq]; [done|].
  destruct (decide (phase_index m = phase_index b)); [|done].
  intros E. f_equal. by apply IH.
Qed.

Lemma head_sorted_is_Some l : l ≠ [] → is_Some (head (sorted l)).
Proof.
  intros Hl. destruct (sorted l) eqn:E; [|by eexists].
  by apply sorted_nil_inv in E.
Qed.

Lemma head_sorted_None l : head (sorted l) = None → l = [].
Proof.
  intros H. destruct l as [|x l]; [done|].
  destruct (head_sorted_is_Some (x :: l)) as [? ?]; [done|congruence].
Qed.

(** Whenever the best candidate is the only one of its phase, the call
    raises: with another phase present line 94 indexes position 1 of a
    one-element list, and without one the pool has no rank 1. *)
Lemma lone_best_phase_raises ms z b :
  presents z ms →
  head (sorted ms) = Some b →
  length (filter (λ m, phase_index m = phase_index b) ms) = 1%nat →
  raises (crystal_from_vector_matching get_nth_best_solution z).
Proof.
  intros Hz Hb Hlen.
  destruct (presents_cases _ _ Hz) as [(m & -> & ->)|Hu].
  - apply lone_record_raises.
  - unfold crystal_from_vector_matching.
    pose proof (select_pool _ _ Hu) as Hsel.
    rewrite Hb in Hsel. simpl in Hsel.
    assert (Hsame :
      sorted (filter (λ m, phase_index m = phase_index b) ms) !! 1%nat = None).
    { apply lookup_ge_None. rewrite sorted_length. lia. }
    rewrite Hsame in Hsel.
    destruct (head (sorted (filter (λ m, phase_index m ≠ phase_index b) ms)))
      as [c|] eqn:Hc.
    + destruct (Qeq_bool (total_error c) 0);
        rewrite (run_reducer_select_raises _ _ _ _ Hsel); by eexists.
    + apply head_sorted_None in Hc.
      rewrite (filter_same_phase_all _ _ Hc) in Hlen.
      assert (Hall : sorted ms !! 1%nat = None).
      { apply lookup_ge_None. rewrite sorted_length. lia. }
      rewrite Hall in Hsel.
      rewrite (run_reducer_select_raises _ _ _ _ Hsel). by eexists.
Qed.

(** The same-phase list is indexed at 1 only when another phase is
    present; the helper's rank 1 is asked for only when none is. *)
Lemma two_candidates_one_phase_returns ms z :
  presents z ms → single_phase ms → (2 ≤ length ms)%nat →
  ∃ b s r,
    sorted ms !! 0%nat = Some b ∧ sorted ms !! 1%nat = Some s ∧
    selection get_nth_best_solution z = Ok (b, s) ∧
    crystal_from_vector_matching get_nth_best_solution z = Ok r.
Proof.
  intros Hz Hs Hlen.
  assert (Hu : unwrap z = Arr (map Cand ms)) by (apply unwrap_presents; [done|lia]).
  pose proof (select_pool _ _ Hu) as Hsel.
  destruct (sorted ms) as [|b [|s l]] eqn:E;
    try (apply (f_equal length) in E; rewrite sorted_length in E; simpl in E; lia).
  simpl in Hsel.
  assert (Hb : b ∈ ms) by (apply sorted_elem_of; rewrite E; left).
  rewrite (single_phase_other ms b Hs Hb) in Hsel. simpl in Hsel.
  exists b, s. eexists. split; [done|]. split; [done|].
  unfold selection, crystal_from_vector_matching.
  rewrite (run_reducer_after_select _ _ _ _ _ Hsel), Hsel. done.
Qed.

(** C1: on the MatchSet [{phase 0, err 0.10}, {phase 1, err 0.20}] the
    best phase contributes one candidate and the globally second-best
    candidate is the one of phase 1; the reducer does not fall back to
    it: it indexes position 1 of the one-element same-phase list and
    raises [IndexError], in either presentation of the MatchSet. *)
Theorem lone_best_phase_no_fallback :
  get_nth_best_solution (Arr (map Cand lone_best)) 0 = Ok (candidate 0 0.10) ∧
  get_nth_best_solution (Arr (map Cand lone_best)) 1 = Ok (candidate 1 0.20) ∧
  sorted (filter (λ m, phase_index m = 0%Z) lone_best) = [candidate 0 0.10] ∧
  crystal_from_vector_matching get_nth_best_solution (flat lone_best)
    = Raise IndexError ∧
  crystal_from_vector_matching get_nth_best_solution (wrapped lone_best)
    = Raise IndexError.
Proof. repeat split; vm_compute; reflexivity. Qed.

(** A MatchSet of one candidate never gets through the reducer. *)
Lemma one_candidate_raises m z :
  presents z [m] → raises (crystal_from_vector_matching get_nth_best_solution z).
Proof.
  intros Hz. apply (lone_best_phase_raises [m] z m Hz); [done|].
  by rewrite filter_cons_True.
Qed.

(** C2: the entry is not there for every MatchSet with two phases.  On
    [{phase 0, err 0}, {phase 0, err 0.5}, {phase 1, err 0}] the division
    of line 85 has the divisor zero and no guard: the call raises
    [ZeroDivisionError] with only the three base entries stored.  On
    [{phase 0, err 0.10}, {phase 1, err 0.20}] the call raises
    [IndexError] at line 94, so no dict reaches the caller. *)
Theorem phase_reliability_not_delivered :
  distinct_phases zero_cross ∧
  run_reducer get_nth_best_solution (wrapped zero_cross)
    = (base_metrics (candidate 0 0), Raise ZeroDivisionError) ∧
  metrics_built get_nth_best_solution (wrapped zero_cross) !! "phase_reliability"
    = None ∧
  crystal_from_vector_matching get_nth_best_solution (flat zero_cross)
    = Raise ZeroDivisionError ∧
  distinct_phases lone_best ∧
  crystal_from_vector_matching get_nth_best_solution (wrapped lone_best)
    = Raise IndexError ∧
  crystal_from_vector_matching get_nth_best_solution (flat lone_best)
    = Raise IndexError.
Proof.
  split.
  { exists (candidate 0 0), (candidate 1 0).
    split; [left|]. split; [right; right; left|]. simpl. discriminate. }
  split; [vm_compute; reflexivity|]. split; [vm_compute; reflexivity|].
  split; [vm_compute; reflexivity|]. split.
  { exists (candidate 0 0.10), (candidate 1 0.20).
    split; [left|]. split; [right; left|]. simpl. discriminate. }
  split; vm_compute; reflexivity.
Qed.

(** C3: on the MatchSet [{phase 0, err 0.10}] the reducer raises.  In an
    array of shape (1,) the candidate is unwrapped by line 54 and the call
    fails whatever the imported helper does; inside the wrapping array the
    pool has no rank 1, and whatever the helper answers the call either
    raises or returns a dict that does hold [orientation_reliability]. *)
Theorem one_candidate_fails :
  crystal_from_vector_matching get_nth_best_solution (flat scenario_B)
    = Raise AttributeError ∧
  crystal_from_vector_matching get_nth_best_solution (wrapped scenario_B)
    = Raise IndexError ∧
  ∀ nth_best : nth_best_solver,
    raises (crystal_from_vector_matching nth_best (flat scenario_B)) ∧
    (raises (crystal_from_vector_matching nth_best (wrapped scenario_B)) ∨
     ∃ r, crystal_from_vector_matching nth_best (wrapped scenario_B) = Ok r ∧
          is_Some (res_metrics r !! "orientation_reliability")).
Proof.
  split; [vm_compute; reflexivity|]. split; [vm_compute; reflexivity|].
  intros nth_best. split.
  - apply lone_record_raises.
  - apply returns_or_raises.
Qed.

(** C5: [VectorMatchingResults.to_crystal_map] raises
    [ValueError("Currently under development")] on every input, with the
    world as it found it: the data has not been read, no map is built. *)
Theorem vector_to_crystal_map_unsupported
    (self : VectorMatchingResults) (w : world) :
  VectorMatchingResults_to_crystal_map self w =
    (w, Raise (ValueError "Currently under development")).
Proof. reflexivity. Qed.

(** ** Navigation coordinates *)

Lemma lookup_concat_uniform {A} (ls : list (list A)) (w r c : nat) (row : list A) :
  Forall (λ l, length l = w) ls →
  ls !! r = Some row → (c < w)%nat →
  concat ls !! (r * w + c)%nat = row !! c.
Proof.
  intros Hall. revert r. induction Hall as [|l ls Hl _ IH]; intros r Hr Hc.
  - done.
  - destruct r as [|r]; simpl in *.
    + simplify_eq. apply lookup_app_l. lia.
    + rewrite lookup_app_r by lia.
      replace (w + r * w + c - length l)%nat with (r * w + c)%nat by lia.
      by apply IH.
Qed.

Lemma length_concat_uniform {A} (ls : list (list A)) (w : nat) :
  Forall (λ l, length l = w) ls → length (concat ls) = (length ls * w)%nat.
Proof.
  induction 1 as [|l ls Hl _ IH]; simpl; [done|].
  rewrite length_app. lia.
Qed.

Lemma grid_uniform {A} (f : nat → nat → A) (h w : nat) :
  Forall (λ l, length l = w) (map (λ r, map (f r) (seq 0 w)) (seq 0 h)).
Proof.
  apply Forall_forall. intros l Hl. apply list_elem_of_fmap in Hl as (r & -> & _).
  by rewrite length_map, length_seq.
Qed.

Lemma grid_lookup {A} (f : nat → nat → A) (h w x y : nat) :
  (x < w)%nat → (y < h)%nat →
  concat (map (λ r, map (f r) (seq 0 w)) (seq 0 h)) !! (y * w + x)%nat = Some (f y x).
Proof.
  intros Hx Hy.
  rewrite (lookup_concat_uniform _ w y x (map (f y) (seq 0 w))).
  - rewrite list_lookup_fmap, lookup_seq_lt by done. done.
  - apply grid_uniform.
  - rewrite list_lookup_fmap, lookup_seq_lt by done. done.
  - done.
Qed.

Lemma navigation_x_lookup h w x y :
  (x < w)%nat → (y < h)%nat → navigation_x (h, w) !! (y * w + x)%nat = Some x.
Proof. intros. by apply (grid_lookup (λ _ c, c)). Qed.

Lemma navigation_y_lookup h w x y :
  (x < w)%nat → (y < h)%nat → navigation_y (h, w) !! (y * w + x)%nat = Some y.
Proof. intros. by apply (grid_lookup (λ r _, r)). Qed.

Lemma navigation_length h w :
  length (navigation_x (h, w)) = (h * w)%nat ∧
  length (navigation_y (h, w)) = (h * w)%nat.
Proof.
  unfold navigation_x, navigation_y, flatten. simpl. split.
  - rewrite (length_concat_uniform _ w) by apply (grid_uniform (λ _ c, c)).
    by rewrite length_map, length_seq.
  - rewrite (length_concat_uniform _ w) by apply (grid_uniform (λ r _, r)).
    by rewrite length_map, length_seq.
Qed.

Lemma to_crystal_map_coordinates self cm :
  to_crystal_map self = Ok cm →
  cm_x cm = navigation_x (nav_shape self) ∧
  cm_y cm = navigation_y (nav_shape self).
Proof.
  unfold to_crystal_map. intros H.
  repeat match type of H with
         | rbind ?r _ = _ => destruct r; simpl in H; [|done]
         end.
  by simplify_eq.
Qed.

(** C6: the coordinate arrays of a crystal map are those of the scan
    shape alone; for a scan of height [H] and width [W] both have [H * W]
    entries, and at the flattened index [y * W + x] the x-array holds [x]
    (the column, fast-varying) and the y-array holds [y] (the row,
    slow-varying). *)
Theorem coordinates_row_major (self : Signal2D) (cm : CrystalMap) (H W : nat) :
  nav_shape self = (H, W) →
  to_crystal_map self = Ok cm →
  cm_x cm = navigation_x (H, W) ∧
  cm_y cm = navigation_y (H, W) ∧
  length (cm_x cm) = (H * W)%nat ∧
  length (cm_y cm) = (H * W)%nat ∧
  ∀ x y, (x < W)%nat → (y < H)%nat →
         cm_x cm !! (y * W + x)%nat = Some x ∧
         cm_y cm !! (y * W + x)%nat = Some y.
Proof.
  intros Hshape Hcm.
  destruct (to_crystal_map_coordinates _ _ Hcm) as [-> ->]. rewrite Hshape.
  destruct (navigation_length H W) as [Hx Hy].
  repeat split; try done.
  - by apply navigation_x_lookup.
  - by apply navigation_y_lookup.
Qed.

(** ** The template selector *)

Lemma Qlt_bool_true a b : Qlt_bool a b = true ↔ a < b.
Proof.
  unfold Qlt_bool. rewrite negb_true_iff. split.
  - intros H. apply Qnot_le_lt. intros Hle.
    apply Qle_bool_iff in Hle. congruence.
  - intros H. destruct (Qle_bool b a) eqn:E; [|done].
    apply Qle_bool_iff in E. exfalso. by apply (Qlt_not_le _ _ H).
Qed.

Lemma Qlt_bool_false a b : Qlt_bool a b = false ↔ b <= a.
Proof. unfold Qlt_bool. rewrite negb_false_iff. apply Qle_bool_iff. Qed.

Lemma argmax_from_first_max (l pre : list Q) (best_i i : nat) (best : Q) :
  i = length pre →
  pre !! best_i = Some best →
  (∀ k v, pre !! k = Some v → v <= best) →
  (∀ k v, (k < best_i)%nat → pre !! k = Some v → v < best) →
  first_max (pre ++ l) (argmax_from best_i best i l).
Proof.
  revert pre best_i i best.
  induction l as [|v l IH]; intros pre bi i b -> Hb Hle Hlt; simpl.
  - rewrite app_nil_r. by exists b.
  - replace (pre ++ v :: l) with ((pre ++ [v]) ++ l) by by rewrite <- app_assoc.
    destruct (Qlt_bool b v) eqn:E.
    + apply Qlt_bool_true in E. apply IH.
      * rewrite length_app. simpl. lia.
      * by apply list_lookup_middle.
      * intros k u Hk. apply lookup_snoc_Some in Hk as [[_ Hk]|[_ <-]].
        -- apply Qlt_le_weak. eapply Qle_lt_trans; [by eapply Hle|done].
        -- apply Qle_refl.
      * intros k u Hlen Hk. apply lookup_snoc_Some in Hk as [[_ Hk]|[-> _]]; [|lia].
        eapply Qle_lt_trans; [by eapply Hle|done].
    + apply Qlt_bool_false in E. apply IH.
      * rewrite length_app. simpl. lia.
      * by apply lookup_app_l_Some.
      * intros k u Hk. apply lookup_snoc_Some in Hk as [[_ Hk]|[_ <-]]; [|done].
        by eapply Hle.
      * intros k u Hlen Hk. apply lookup_snoc_Some in Hk as [[_ Hk]|[-> _]].
        -- by eapply Hlt.
        -- apply lookup_lt_Some in Hb. lia.
Qed.

Lemma argmax_first_max (l : list Q) :
  l ≠ [] → ∃ j, argmax l = Ok j ∧ first_max l j.
Proof.
  destruct l as [|v l]; [done|]. intros _. eexists. split; [done|].
  apply (argmax_from_first_max l [v] 0 1 v); try done.
  - intros [|k] u Hk; simplify_eq/=. apply Qle_refl.
  - intros k u Hk. lia.
Qed.

Lemma column_lookup (z : list (list Q)) (n j : nat) :
  Forall (λ row, length row = n) z → (j < n)%nat →
  ∃ col, column z j = Ok col ∧ length col = length z ∧
         ∀ i row, z !! i = Some row → col !! i = row !! j.
Proof.
  intros Hall Hj. unfold column.
  induction Hall as [|row z Hrow _ (col & Hcol & Hlen & Hat)]; simpl.
  - exists []. by split.
  - unfold index at 1.
    destruct (row !! j) as [a|] eqn:Ha;
      [|apply lookup_ge_None in Ha; lia].
    simpl. rewrite Hcol. simpl. exists (a :: col).
    split; [done|]. split; [simpl; by rewrite Hlen|].
    intros [|i] r Hr; simplify_eq/=; [done|by apply Hat].
Qed.

(** C7: on an array of shape (5, n), n > 0, with rows phase, alpha, beta,
    gamma, score, the selector returns the column of all five rows at the
    first position where the score row is largest; for the score row
    [0.8, 0.95] that is column 1. *)
Theorem best_match_is_max_score_column (z : list (list Q)) (n : nat) :
  has_shape z 5 n → (0 < n)%nat →
  (∃ score j col,
     last z = Some score ∧ first_max score j ∧ (j < n)%nat ∧
     _get_best_match z = Ok col ∧ length col = 5%nat ∧
     ∀ i row, z !! i = Some row → col !! i = row !! j) ∧
  (last z = Some [0.8; 0.95] →
   ∃ col, _get_best_match z = Ok col ∧
          ∀ i row, z !! i = Some row → col !! i = row !! 1%nat).
Proof.
  intros [Hrows Hall] Hn.
  destruct (last z) as [score|] eqn:Hlast;
    [|apply last_None in Hlast; by subst].
  assert (Hscore : length score = n).
  { apply last_Some_elem_of in Hlast.
    by apply (proj1 (Forall_forall _ _) Hall). }
  destruct (argmax_first_max score) as (j & Hj & Hmax);
    [destruct score; simpl in *; [lia|done]|].
  assert (Hjn : (j < n)%nat).
  { destruct Hmax as (s & Hs & _). apply lookup_lt_Some in Hs. lia. }
  destruct (column_lookup z n j Hall Hjn) as (col & Hcol & Hlen & Hat).
  assert (Hbest : _get_best_match z = Ok col).
  { unfold _get_best_match, last_row. rewrite Hlast. simpl. by rewrite Hj. }
  split.
  - exists score, j, col. repeat split; try done. by rewrite Hlen.
  - intros [= ->]. vm_compute in Hj. injection Hj as <-. by exists col.
Qed.

(** ** Attaching Miller indices *)

Lemma setattr_hkls_lookup (w : world) (vectors : nat) (h : option nat)
    (o : DiffractionVectors) :
  objects w !! vectors = Some o →
  ∃ w', setattr_hkls vectors h w = (w', Ok tt) ∧
        objects w' !! vectors = Some (set_hkls h o) ∧
        (∀ v, v ≠ vectors → objects w' !! v = objects w !! v) ∧
        warnings w' = warnings w ∧ data_reads w' = data_reads w.
Proof.
  intros Ho. eexists. split; [reflexivity|]. simpl.
  split; [by rewrite lookup_alter_eq, Ho|].
  split; [|done]. intros v Hv. by rewrite lookup_alter_ne.
Qed.

Lemma getattr_hkls_live (w : world) (vectors : nat) (o : DiffractionVectors) :
  objects w !! vectors = Some o →
  getattr_hkls vectors w = (w, Ok (hkls o)).
Proof. intros Ho. unfold getattr_hkls. unfold_monad. by rewrite Ho. Qed.

(** C8: with [overwrite=False] and [vectors.hkls] set, the call changes no
    object, appends one warning and returns; with [overwrite=True] the
    object behind [vectors] afterwards has [self.hkls] as its [hkls],
    whatever either held, with its other data and every other object
    untouched and no warning; neither call can raise, so nothing is
    validated. *)
Theorem overwrite_guard
    (self : VectorMatchingResults) (vectors : nat) (w : world)
    (o : DiffractionVectors) :
  objects w !! vectors = Some o →
  (is_Some (hkls o) →
   get_indexed_diffraction_vectors self vectors PyFalse w =
     ({| objects := objects w;
         warnings := warnings w ++ [already_indexed_msg];
         data_reads := data_reads w |}, Ok vectors)) ∧
  (∃ w' o',
     get_indexed_diffraction_vectors self vectors PyTrue w = (w', Ok vectors) ∧
     objects w' !! vectors = Some o' ∧
     hkls o' = vm_hkls self ∧
     peaks o' = peaks o ∧
     (∀ v, v ≠ vectors → objects w' !! v = objects w !! v) ∧
     warnings w' = warnings w).
Proof.
  intros Ho. split.
  - intros [h Hh]. unfold get_indexed_diffraction_vectors.
    unfold bind at 1. unfold bind at 1.
    rewrite (getattr_hkls_live _ _ _ Ho), Hh. done.
  - destruct (setattr_hkls_lookup w vectors (vm_hkls self) o Ho)
      as (w' & Hset & Hv & Hother & Hwarn & _).
    exists w', (set_hkls (vm_hkls self) o).
    unfold get_indexed_diffraction_vectors.
    unfold bind. rewrite Hset. by repeat split.
Qed.

(** C10: with [overwrite=False] and [vectors.hkls] being [None] the call
    makes [self.hkls] the [hkls] of the object behind [vectors], leaving
    its other data alone and issuing no warning; and whatever [overwrite]
    is, the call returns the reference it was passed. *)
Theorem assigns_when_unset_and_returns_vectors
    (self : VectorMatchingResults) (vectors : nat) (overwrite : overwrite_arg)
    (w : world) (o : DiffractionVectors) :
  objects w !! vectors = Some o →
  ∃ w', get_indexed_diffraction_vectors self vectors overwrite w = (w', Ok vectors) ∧
        (overwrite = PyFalse → hkls o = None →
         ∃ o', objects w' !! vectors = Some o' ∧
               hkls o' = vm_hkls self ∧
               peaks o' = peaks o ∧
               warnings w' = warnings w).
Proof.
  intros Ho.
  destruct (setattr_hkls_lookup w vectors (vm_hkls self) o Ho)
    as (w' & Hset & Hv & _ & Hwarn & _).
  unfold get_indexed_diffraction_vectors. destruct overwrite.
  - unfold bind at 1. unfold bind at 1. rewrite (getattr_hkls_live _ _ _ Ho).
    destruct (hkls o) as [h|] eqn:Hh.
    + eexists. split; [reflexivity|]. by intros _ [=].
    + rewrite Hset. exists w'. split; [done|]. intros _ _.
      by exists (set_hkls (vm_hkls self) o).
  - unfold bind. rewrite Hset. exists w'. split; [done|]. by intros [=].
  - eexists. split; [reflexivity|]. by intros [=].
Qed.

(** ** The spec's scenarios as instances *)

(** Scenario A: phase 0 wins, [phase_reliability] is 50 and
    [orientation_reliability] is 200/3. *)
Example scenario_A_result :
  ∃ r, crystal_from_vector_matching get_nth_best_solution (wrapped scenario_A) = Ok r ∧
       res_phase r = 0%Z ∧
       res_metrics r !! "phase_reliability" = Some (MFloat (100 * (1 - 0.10 / 0.20))) ∧
       res_metrics r !! "orientation_reliability" = Some (MFloat (100 * (1 - 0.10 / 0.30))) ∧
       100 * (1 - 0.10 / 0.20) == 50 ∧
       100 * (1 - 0.10 / 0.30) == 200 # 3.
Proof. eexists. repeat split; vm_compute; reflexivity. Qed.

(** Scenario C: column 1, the one with score 0.95. *)
Example scenario_C_result : _get_best_match scenario_C = Ok [1; 20; 15; 2; 0.95].
Proof. reflexivity. Qed.

Lemma coordinates_row_major_witness :
  nav_shape scan_1x2 = (1%nat, 2%nat) ∧
  ∃ cm, to_crystal_map scan_1x2 = Ok cm ∧
        cm_x cm = [0%nat; 1%nat] ∧ cm_y cm = [0%nat; 0%nat].
Proof.
  split; [reflexivity|].
  destruct (to_crystal_map scan_1x2) as [cm|e] eqn:E; [|vm_compute in E; discriminate].
  exists cm. split; [reflexivity|].
  destruct (coordinates_row_major scan_1x2 cm 1 2 eq_refl E) as (Hx & Hy & _).
  by rewrite Hx, Hy.
Defined.

Lemma best_match_is_max_score_column_witness :
  has_shape scenario_C 5 2 ∧
  ∃ col, _get_best_match scenario_C = Ok col ∧
         ∀ i row, scenario_C !! i = Some row → col !! i = row !! 1%nat.
Proof.
  assert (Hshape : has_shape scenario_C 5 2).
  { split; [reflexivity|]. repeat constructor. }
  split; [exact Hshape|].
  apply (best_match_is_max_score_column scenario_C 2 Hshape); [lia|reflexivity].
Defined.

Lemma overwrite_guard_witness :
  objects (world_of indexed_vectors) !! 0%nat = Some indexed_vectors ∧
  get_indexed_diffraction_vectors results_with_hkls 0 PyFalse (world_of indexed_vectors) =
    ({| objects := objects (world_of indexed_vectors);
        warnings := [already_indexed_msg];
        data_reads := 0 |}, Ok 0%nat) ∧
  ∃ w' o',
    get_indexed_diffraction_vectors results_with_hkls 0 PyTrue (world_of indexed_vectors)
      = (w', Ok 0%nat) ∧
    objects w' !! 0%nat = Some o' ∧
    hkls indexed_vectors = Some 7%nat ∧ hkls o' = Some 3%nat ∧ peaks o' = [].
Proof.
  split; [vm_compute; reflexivity|].
  destruct (overwrite_guard results_with_hkls 0 (world_of indexed_vectors) indexed_vectors)
    as [Hfalse (w' & o' & Hrun & Ho' & Hh & Hp & _)]; [vm_compute; reflexivity|].
  split; [apply Hfalse; by eexists|].
  exists w', o'. by repeat split.
Defined.

Lemma assigns_when_unset_and_returns_vectors_witness :
  objects (world_of fresh_vectors) !! 0%nat = Some fresh_vectors ∧
  ∃ w' o',
    get_indexed_diffraction_vectors results_with_hkls 0 PyFalse (world_of fresh_vectors)
      = (w', Ok 0%nat) ∧
    objects w' !! 0%nat = Some o' ∧
    hkls fresh_vectors = None ∧ hkls o' = Some 3%nat ∧
    warnings w' = [].
Proof.
  split; [vm_compute; reflexivity|].
  destruct (assigns_when_unset_and_returns_vectors
              results_with_hkls 0 PyFalse (world_of fresh_vectors) fresh_vectors)
    as (w' & Hrun & Hset); [vm_compute; reflexivity|].
  destruct (Hset eq_refl eq_refl) as (o' & Ho' & Hh & _ & Hw).
  exists w', o'. by repeat split.
Defined.

(** * Further properties of the module *)

(** ** Phase names and their indices *)

Lemma py_dict_snoc {V} (pairs : list (string * V)) (k : string) (v : V) :
  py_dict (pairs ++ [(k, v)]) = <[k := v]> (py_dict pairs).
Proof. unfold py_dict. by rewrite foldl_app. Qed.

Lemma get_phase_name_and_index_snoc (keys : list string) (y : string) :
  get_phase_name_and_index (keys ++ [y]) =
  <[y := length keys]> (get_phase_name_and_index keys).
Proof.
  unfold get_phase_name_and_index. rewrite imap_app. simpl.
  rewrite Nat.add_0_r. apply py_dict_snoc.
Qed.

(** X1: A dictionary's keys are distinct, and then the result inverts the
    key list: the name at position [i] is mapped to [i]. *)
Theorem phase_index_of_name (keys : list string) (i : nat) (k : string) :
  NoDup keys → keys !! i = Some k →
  get_phase_name_and_index keys !! k = Some i.
Proof.
  revert i. induction keys as [|y keys IH] using rev_ind; intros i Hnd Hi; [done|].
  rewrite get_phase_name_and_index_snoc.
  apply NoDup_app in Hnd as (Hnd & Hy & _).
  apply lookup_app_Some in Hi as [Hi|[Hlen Hi]].
  - rewrite lookup_insert_ne; [by apply IH|].
    intros ->. apply (Hy k); [by eapply list_elem_of_lookup_2|left].
  - destruct (i - length keys)%nat as [|n] eqn:E; simplify_eq/=.
    replace i with (length keys) by lia. apply lookup_insert_eq.
Qed.

Lemma phase_index_of_name_witness :
  NoDup ["ferrite"; "austenite"] ∧
  get_phase_name_and_index ["ferrite"; "austenite"] !! "austenite" = Some 1%nat.
Proof.
  assert (Hnd : NoDup ["ferrite"; "austenite"]) by compute_done.
  split; [exact Hnd|].
  apply (phase_index_of_name ["ferrite"; "austenite"] 1 "austenite" Hnd).
  reflexivity.
Defined.

(** X2: Whatever the key list, an entry of the result points at a position
    that holds its name, and at the last such position. *)
Theorem phase_name_of_index (keys : list string) (k : string) (i : nat) :
  get_phase_name_and_index keys !! k = Some i →
  keys !! i = Some k ∧ ∀ j, (i < j)%nat → keys !! j ≠ Some k.
Proof.
  revert i. induction keys as [|y keys IH] using rev_ind; intros i Hi; [done|].
  rewrite get_phase_name_and_index_snoc in Hi.
  destruct (decide (y = k)) as [->|Hne].
  - rewrite lookup_insert_eq in Hi. simplify_eq. split.
    + by apply list_lookup_middle.
    + intros j Hj Hk. apply lookup_lt_Some in Hk.
      rewrite length_app in Hk. simpl in Hk. lia.
  - rewrite lookup_insert_ne in Hi by done.
    destruct (IH i Hi) as [Hk Hlast]. split.
    + by apply lookup_app_l_Some.
    + intros j Hj Hkj. apply lookup_app_Some in Hkj as [Hkj|[Hlen Hkj]].
      * by apply (Hlast j).
      * destruct (j - length keys)%nat; simplify_eq/=.
Qed.

Lemma phase_name_of_index_witness :
  get_phase_name_and_index ["a"; "b"; "a"] !! "a" = Some 2%nat ∧
  ["a"; "b"; "a"] !! 2%nat = Some "a" ∧
  ∀ j, (2 < j)%nat → ["a"; "b"; "a"] !! j ≠ Some "a".
Proof.
  split; [vm_compute; reflexivity|].
  apply (phase_name_of_index ["a"; "b"; "a"] "a" 2). vm_compute; reflexivity.
Defined.

(** X3: The result has an entry for exactly the names of the key list. *)
Theorem phase_names_covered (keys : list string) (k : string) :
  is_Some (get_phase_name_and_index keys !! k) ↔ k ∈ keys.
Proof.
  induction keys as [|y keys IH] using rev_ind.
  - split; [by intros [? ?]|by intros ?%elem_of_nil].
  - rewrite get_phase_name_and_index_snoc, elem_of_app, list_elem_of_singleton.
    destruct (decide (y = k)) as [->|Hne].
    + rewrite lookup_insert_eq. split; [by right|by eexists].
    + rewrite lookup_insert_ne by done. rewrite IH.
      split; [by left|]. by intros [?| ->].
Qed.

(** ** Peaks of the best template *)

Lemma py_getitem_out_of_range {A} (l : list A) (i : Z) :
  ¬ (- Z.of_nat (length l) ≤ i < Z.of_nat (length l))%Z →
  py_getitem l i = Raise IndexError.
Proof.
  intros H. unfold py_getitem. cbv zeta.
  destruct (decide _) as [?|_]; [lia|]. destruct (decide _) as [?|_]; [lia|done].
Qed.

Lemma py_getitem_minus_one {A} (l : list A) (a : A) :
  last l = Some a → py_getitem l (-1) = Ok a.
Proof.
  intros Hlast. unfold py_getitem. cbv zeta.
  assert (Hlen : (0 < length l)%nat) by (destruct l; simpl; [done|lia]).
  destruct (decide _) as [?|_]; [lia|]. destruct (decide _) as [_|?]; [|lia].
  unfold index. rewrite last_lookup in Hlast.
  replace (Z.to_nat (Z.of_nat (length l) + -1)) with (pred (length l)) by lia.
  by rewrite Hlast.
Qed.

Section PeaksProperties.

Variable Entry : Type.
Variable nth_best_template : Entry → nat → result TemplateMatch.

(** X4: What a returning call hands back: the simulated coordinates of the
    library entry named by the best fit's phase and angles, one peak per
    simulated spot, each cut to its first two components. *)
Theorem peaks_are_cut_coordinates
    (z : Entry) (library : DiffractionLibrary) (rank : nat)
    (peaks : list (list Q)) :
  _peaks_from_best_template Entry nth_best_template z library rank = Ok peaks →
  ∃ best_fit phase coordinates,
    nth_best_template z rank = Ok best_fit ∧
    py_getitem (lib_keys library) (py_int (tm_phase best_fit)) = Ok phase ∧
    lib_sim_coordinates library phase (tm_angle best_fit) = Ok coordinates ∧
    length peaks = length coordinates ∧
    (∀ i row, coordinates !! i = Some row → peaks !! i = Some (take 2 row)) ∧
    (Forall (λ row, length row = 3%nat) coordinates →
     Forall (λ p, length p = 2%nat) peaks).
Proof.
  unfold _peaks_from_best_template. intros H.
  destruct (nth_best_template z rank) as [bf|] eqn:Hbf; [|done]. simpl in H.
  destruct (py_getitem _ _) as [phase|] eqn:Hphase; [|done]. simpl in H.
  destruct (lib_sim_coordinates _ _ _) as [coords|] eqn:Hc; [|done]. simpl in H.
  simplify_eq. exists bf, phase, coords. repeat split; try done.
  - by rewrite length_map.
  - intros i row Hrow. by rewrite list_lookup_fmap, Hrow.
  - intros Hall. apply Forall_fmap. eapply Forall_impl; [exact Hall|].
    intros row Hrow. simpl in *. by rewrite length_take, Hrow.
Qed.

(** X5: A phase entry that is no valid index of the list of phase names, from
    either end, makes the call raise [IndexError] before the library is
    asked for a simulation. *)
Theorem peaks_phase_out_of_range
    (z : Entry) (library : DiffractionLibrary) (rank : nat)
    (best_fit : TemplateMatch) :
  nth_best_template z rank = Ok best_fit →
  ¬ (- Z.of_nat (length (lib_keys library)) ≤ py_int (tm_phase best_fit)
       < Z.of_nat (length (lib_keys library)))%Z →
  _peaks_from_best_template Entry nth_best_template z library rank
    = Raise IndexError.
Proof.
  intros Hbf Hout. unfold _peaks_from_best_template. rewrite Hbf. simpl.
  by rewrite py_getitem_out_of_range.
Qed.

(** X6: A phase entry of -1 is not rejected: it selects the last phase name of
    the library. *)
Theorem peaks_negative_phase_wraps
    (z : Entry) (library : DiffractionLibrary) (rank : nat)
    (best_fit : TemplateMatch) (name : string) :
  nth_best_template z rank = Ok best_fit →
  py_int (tm_phase best_fit) = (-1)%Z →
  last (lib_keys library) = Some name →
  _peaks_from_best_template Entry nth_best_template z library rank =
    rbind (lib_sim_coordinates library name (tm_angle best_fit))
          (λ coordinates, Ok (map (take 2) coordinates)).
Proof.
  intros Hbf Hint Hlast. unfold _peaks_from_best_template. rewrite Hbf. simpl.
  by rewrite Hint, (py_getitem_minus_one _ _ Hlast).
Qed.

End PeaksProperties.

Lemma peaks_are_cut_coordinates_witness :
  _peaks_from_best_template unit (fit_of_phase 1) tt two_phase_library 0
    = Ok [[1; 2]; [4; 5]] ∧
  ∃ best_fit phase coordinates,
    fit_of_phase 1 tt 0%nat = Ok best_fit ∧
    py_getitem (lib_keys two_phase_library) (py_int (tm_phase best_fit)) = Ok phase ∧
    lib_sim_coordinates two_phase_library phase (tm_angle best_fit) = Ok coordinates ∧
    length [[1; 2]; [4; 5]] = length coordinates ∧
    (∀ i row, coordinates !! i = Some row → [[1; 2]; [4; 5]] !! i = Some (take 2 row)) ∧
    (Forall (λ row, length row = 3%nat) coordinates →
     Forall (λ p : list Q, length p = 2%nat) [[1; 2]; [4; 5]]).
Proof.
  split; [reflexivity|].
  apply (peaks_are_cut_coordinates unit (fit_of_phase 1) tt two_phase_library 0).
  reflexivity.
Defined.

Lemma peaks_phase_out_of_range_witness :
  _peaks_from_best_template unit (fit_of_phase 2) tt two_phase_library 0
    = Raise IndexError.
Proof.
  apply (peaks_phase_out_of_range unit (fit_of_phase 2) tt two_phase_library 0
           {| tm_phase := 2; tm_angle := [0; 0; 0]; tm_score := 1 |}).
  - reflexivity.
  - vm_compute. intros [_ H]. discriminate H.
Defined.

Lemma peaks_negative_phase_wraps_witness :
  _peaks_from_best_template unit (fit_of_phase (-1)) tt two_phase_library 0 =
    rbind (lib_sim_coordinates two_phase_library "austenite" [0; 0; 0])
          (λ coordinates, Ok (map (take 2) coordinates)).
Proof.
  apply (peaks_negative_phase_wraps unit (fit_of_phase (-1)) tt two_phase_library 0
           {| tm_phase := -1; tm_angle := [0; 0; 0]; tm_score := 1 |} "austenite");
    reflexivity.
Defined.

(** ** The template selector at the edges *)

(** X7: A pixel without a single match (an array with rows but no columns)
    makes the selector raise a [ValueError]: [np.argmax] has nothing to
    choose from. *)
Theorem best_match_of_no_matches (z : list (list Q)) (rows : nat) :
  has_shape z rows 0 → (0 < rows)%nat →
  ∃ msg, _get_best_match z = Raise (ValueError msg).
Proof.
  intros [Hrows Hall] Hpos.
  destruct (last z) as [score|] eqn:Hlast;
    [|apply last_None in Hlast; subst; simpl in *; lia].
  assert (Hscore : length score = 0%nat).
  { apply last_Some_elem_of in Hlast.
    by apply (proj1 (Forall_forall _ _) Hall). }
  destruct score; [|done].
  unfold _get_best_match, last_row. rewrite Hlast. by eexists.
Qed.

Lemma best_match_of_no_matches_witness :
  has_shape [[]; []; []; []; []] 5 0 ∧
  ∃ msg, _get_best_match [[]; []; []; []; []] = Raise (ValueError msg).
Proof.
  assert (Hshape : has_shape [[]; []; []; []; []] 5 0).
  { split; [reflexivity|]. repeat constructor. }
  split; [exact Hshape|].
  apply (best_match_of_no_matches _ 5 Hshape). lia.
Defined.

(** ** The crystal map of template matching results *)

Lemma mapM_Ok_length {A B} (f : A → result B) (l : list A) (bs : list B) :
  mapM f l = Ok bs → length bs = length l.
Proof.
  revert bs. induction l as [|a l IH]; intros bs H; simpl in H; [by simplify_eq|].
  destruct (f a) as [b|]; [|done]. simpl in H.
  destruct (mapM f l) as [bs'|]; [|done]. simpl in H. simplify_eq. simpl.
  f_equal. by apply IH.
Qed.

Lemma mapM_Ok_lookup {A B} (f : A → result B) (l : list A) (bs : list B)
    (i : nat) (a : A) :
  mapM f l = Ok bs → l !! i = Some a →
  ∃ b, f a = Ok b ∧ bs !! i = Some b.
Proof.
  revert bs i. induction l as [|x l IH]; intros bs i H Hi; [done|].
  simpl in H. destruct (f x) as [b|] eqn:Hb; [|done]. simpl in H.
  destruct (mapM f l) as [bs'|]; [|done]. simpl in H. simplify_eq.
  destruct i as [|i]; simplify_eq/=; [by exists b|]. by apply IH.
Qed.

Lemma mapM_all_Ok {A B} (f : A → result B) (l : list A) :
  Forall (λ a, ∃ b, f a = Ok b) l → ∃ bs, mapM f l = Ok bs.
Proof.
  induction 1 as [|a l [b Hb] _ [bs Hbs]]; simpl; [by eexists|].
  rewrite Hb. simpl. rewrite Hbs. by eexists.
Qed.

Lemma mapM_raises {A B} (f : A → result B) (l : list A) (i : nat) (a : A) :
  l !! i = Some a → raises (f a) → raises (mapM f l).
Proof.
  revert i. induction l as [|x l IH]; intros i Hi Ha; [done|].
  simpl. destruct (f x) as [b|e] eqn:Hx; [|by exists e]. simpl.
  destruct i as [|i]; simplify_eq/=.
  - destruct Ha as [e He]. congruence.
  - destruct (IH i Hi Ha) as [e ->]. by exists e.
Qed.

Lemma vstack3_T_length (a b c : list Q) (n : nat) :
  length a = n → length b = n → length c = n →
  length (vstack3_T a b c) = n.
Proof.
  revert b c n. induction a as [|x a IH]; intros [|y b] [|z c] n Ha Hb Hc;
    simplify_eq/=; try done.
  f_equal. by apply IH.
Qed.

Lemma vstack3_T_lookup (a b c : list Q) (i : nat) (x y z : Q) :
  a !! i = Some x → b !! i = Some y → c !! i = Some z →
  vstack3_T a b c !! i = Some (x, y, z).
Proof.
  revert b c i. induction a as [|x' a IH]; intros [|y' b] [|z' c] i Ha Hb Hc;
    try done.
  destruct i as [|i]; simplify_eq/=; [done|]. by apply IH.
Qed.

Lemma best_match_ok (px : list (list Q)) :
  pixel_ok px → ∃ col, _get_best_match px = Ok col ∧ length col = 5%nat.
Proof.
  intros (n & [Hrows Hall] & Hn).
  destruct (last px) as [score|] eqn:Hlast;
    [|apply last_None in Hlast; by subst].
  assert (Hscore : length score = n).
  { apply last_Some_elem_of in Hlast.
    by apply (proj1 (Forall_forall _ _) Hall). }
  destruct (argmax_first_max score) as (j & Hj & (s & Hs & _));
    [destruct score; simpl in *; [lia|done]|].
  apply lookup_lt_Some in Hs.
  destruct (column_lookup px n j Hall) as (col & Hcol & Hlen & _); [lia|].
  exists col. split; [|by rewrite Hlen].
  unfold _get_best_match, last_row. rewrite Hlast. simpl. by rewrite Hj.
Qed.

Lemma isig_Ok (k : nat) (_s : list (list Q)) :
  Forall (λ v, (k < length v)%nat) _s →
  ∃ l, isig k _s = Ok l ∧ length l = length _s.
Proof.
  intros Hall. destruct (mapM_all_Ok (λ v, index v k) _s) as [l Hl].
  - eapply Forall_impl; [exact Hall|]. intros v Hv. simpl in *.
    unfold index. destruct (v !! k) eqn:E; [by eexists|].
    apply lookup_ge_None in E. lia.
  - exists l. split; [done|]. by apply (mapM_Ok_length _ _ _ Hl).
Qed.

Lemma isig_lookup (k : nat) (_s : list (list Q)) (l : list Q) (i : nat)
    (col : list Q) :
  isig k _s = Ok l → _s !! i = Some col →
  ∃ v, col !! k = Some v ∧ l !! i = Some v.
Proof.
  intros Hl Hi. destruct (mapM_Ok_lookup _ _ _ _ _ Hl Hi) as (v & Hv & Hlv).
  exists v. split; [|done]. unfold index in Hv.
  destruct (col !! k); by simplify_eq.
Qed.

(** X8: When every pixel holds five rows and at least one match, the export
    returns, and the map has one phase, one Euler triple and one score per
    pixel, in the Bunge convention from crystal to lab, with ["score"] its
    only property. *)
Theorem to_crystal_map_returns (self : Signal2D) :
  Forall pixel_ok (pixels self) →
  ∃ cm euler scores,
    to_crystal_map self = Ok cm ∧
    length (cm_phase_id cm) = length (pixels self) ∧
    cm_rotations cm = from_euler euler "bunge" "crystal2lab" ∧
    length euler = length (pixels self) ∧
    cm_prop cm = {[ "score" := scores ]} ∧
    length scores = length (pixels self).
Proof.
  intros Hpx. unfold to_crystal_map.
  destruct (mapM_all_Ok _get_best_match (pixels self)) as [_s Hs].
  { eapply Forall_impl; [exact Hpx|]. intros px Hok.
    destruct (best_match_ok px Hok) as (col & Hcol & _). by exists col. }
  rewrite Hs. simpl.
  assert (Hlen : length _s = length (pixels self)) by by apply (mapM_Ok_length _ _ _ Hs).
  assert (Hcols : Forall (λ v, length v = 5%nat) _s).
  { apply Forall_lookup. intros i col Hi.
    destruct (lookup_lt_is_Some_2 (pixels self) i) as [px Hpxi].
    { rewrite <- Hlen. by eapply lookup_lt_Some. }
    destruct (mapM_Ok_lookup _ _ _ _ _ Hs Hpxi) as (col' & Hcol' & Hi').
    destruct (best_match_ok px) as (col'' & Hcol'' & H5).
    { by apply (proj1 (Forall_lookup _ _) Hpx i). }
    congruence. }
  assert (Hk : ∀ k, (k < 5)%nat → ∃ l, isig k _s = Ok l ∧ length l = length _s).
  { intros k Hk. apply isig_Ok. eapply Forall_impl; [exact Hcols|].
    intros v Hv. simpl in *. lia. }
  destruct (Hk 0%nat) as (phase_id & -> & H0); [lia|].
  destruct (Hk 1%nat) as (alpha & -> & H1); [lia|].
  destruct (Hk 2%nat) as (beta & -> & H2); [lia|].
  destruct (Hk 3%nat) as (gamma & -> & H3); [lia|].
  destruct (Hk 4%nat) as (score & -> & H4); [lia|].
  simpl. eexists _, _, _. split; [reflexivity|]. simpl.
  split; [congruence|]. split; [reflexivity|].
  split; [apply vstack3_T_length; congruence|].
  split; [reflexivity|]. rewrite length_map. congruence.
Qed.

Lemma scan_1x2_pixels_ok : Forall pixel_ok (pixels scan_1x2).
Proof.
  assert (Hok : pixel_ok scenario_C).
  { exists 2%nat. split; [|lia]. split; [reflexivity|]. repeat constructor. }
  by repeat constructor.
Qed.

Lemma to_crystal_map_returns_witness :
  Forall pixel_ok (pixels scan_1x2) ∧
  ∃ cm euler scores,
    to_crystal_map scan_1x2 = Ok cm ∧
    length (cm_phase_id cm) = 2%nat ∧
    cm_rotations cm = from_euler euler "bunge" "crystal2lab" ∧
    length euler = 2%nat ∧
    cm_prop cm = {[ "score" := scores ]} ∧
    length scores = 2%nat.
Proof.
  split; [exact scan_1x2_pixels_ok|].
  apply (to_crystal_map_returns scan_1x2 scan_1x2_pixels_ok).
Defined.

(** X9: In a map that is returned, the entries of pixel [i] all come from one
    column of that pixel's array, the one the selector picks: its phase,
    its three angles and its score. *)
Theorem to_crystal_map_pixel (self : Signal2D) (cm : CrystalMap)
    (i : nat) (px : list (list Q)) :
  to_crystal_map self = Ok cm →
  pixels self !! i = Some px →
  ∃ col phase alpha beta gamma score euler scores,
    _get_best_match px = Ok col ∧
    col !! 0%nat = Some phase ∧ col !! 1%nat = Some alpha ∧
    col !! 2%nat = Some beta ∧ col !! 3%nat = Some gamma ∧
    col !! 4%nat = Some score ∧
    cm_phase_id cm !! i = Some phase ∧
    cm_rotations cm = from_euler euler "bunge" "crystal2lab" ∧
    euler !! i = Some (alpha, beta, gamma) ∧
    cm_prop cm !! "score" = Some scores ∧
    scores !! i = Some (MFloat score).
Proof.
  unfold to_crystal_map. intros H Hpx.
  destruct (mapM _get_best_match (pixels self)) as [_s|] eqn:Hs; [|done].
  simpl in H.
  destruct (isig 0 _s) as [phase_id|] eqn:E0; [|done]. simpl in H.
  destruct (isig 1 _s) as [alphas|] eqn:E1; [|done]. simpl in H.
  destruct (isig 2 _s) as [betas|] eqn:E2; [|done]. simpl in H.
  destruct (isig 3 _s) as [gammas|] eqn:E3; [|done]. simpl in H.
  destruct (isig 4 _s) as [scores|] eqn:E4; [|done]. simpl in H.
  simplify_eq.
  destruct (mapM_Ok_lookup _ _ _ _ _ Hs Hpx) as (col & Hcol & Hi).
  destruct (isig_lookup _ _ _ _ _ E0 Hi) as (phase & Hc0 & Hp).
  destruct (isig_lookup _ _ _ _ _ E1 Hi) as (alpha & Hc1 & Ha).
  destruct (isig_lookup _ _ _ _ _ E2 Hi) as (beta & Hc2 & Hb).
  destruct (isig_lookup _ _ _ _ _ E3 Hi) as (gamma & Hc3 & Hg).
  destruct (isig_lookup _ _ _ _ _ E4 Hi) as (score & Hc4 & Hsc).
  exists col, phase, alpha, beta, gamma, score.
  exists (vstack3_T alphas betas gammas), (map MFloat scores). simpl.
  split; [done|]. do 5 (split; [done|]). split; [done|]. split; [done|].
  split; [by apply vstack3_T_lookup|].
  split; [apply lookup_singleton_eq|].
  by rewrite list_lookup_fmap, Hsc.
Qed.

Lemma to_crystal_map_pixel_witness :
  pixels scan_1x2 !! 1%nat = Some scenario_C ∧
  ∃ cm, to_crystal_map scan_1x2 = Ok cm ∧
        cm_phase_id cm !! 1%nat = Some 1 ∧
        ∃ scores, cm_prop cm !! "score" = Some scores ∧
                  scores !! 1%nat = Some (MFloat 0.95).
Proof.
  split; [reflexivity|].
  destruct (to_crystal_map scan_1x2) as [cm|e] eqn:E; [|vm_compute in E; discriminate].
  exists cm. split; [reflexivity|].
  destruct (to_crystal_map_pixel scan_1x2 cm 1 scenario_C E eq_refl)
    as (col & phase & alpha & beta & gamma & score & euler & scores
        & Hcol & H0 & _ & _ & _ & H4 & Hp & _ & _ & Hprop & Hsc).
  vm_compute in Hcol. simplify_eq/=.
  split; [exact Hp|]. by exists scores.
Defined.

(** X10: One pixel on which the selector fails is enough for the whole export
    to fail: no partial map is returned. *)
Theorem to_crystal_map_fails_with_pixel (self : Signal2D)
    (i : nat) (px : list (list Q)) :
  pixels self !! i = Some px →
  raises (_get_best_match px) →
  raises (to_crystal_map self).
Proof.
  intros Hpx Hraise. unfold to_crystal_map.
  destruct (mapM_raises _get_best_match _ i px Hpx Hraise) as [e ->].
  by exists e.
Qed.

Lemma to_crystal_map_fails_with_pixel_witness :
  let self := {| nav_shape := (1%nat, 2%nat);
                 pixels := [scenario_C; [[]; []; []; []; []]] |} in
  pixels self !! 1%nat = Some [[]; []; []; []; []] ∧
  raises (_get_best_match [[]; []; []; []; []]) ∧
  raises (to_crystal_map self).
Proof.
  assert (Hr : raises (_get_best_match [[]; []; []; []; []])) by by eexists.
  split; [reflexivity|]. split; [exact Hr|].
  apply (to_crystal_map_fails_with_pixel
           {| nav_shape := (1%nat, 2%nat);
              pixels := [scenario_C; [[]; []; []; []; []]] |}
           1 [[]; []; []; []; []] eq_refl Hr).
Defined.

(** X11: Read the other way round: entry [i] of the coordinate arrays is the
    column [i mod W] and the row [i / W], and no two entries name the same
    position of the scan. *)
Theorem coordinates_of_flat_index (H W i : nat) :
  (i < H * W)%nat →
  navigation_x (H, W) !! i = Some (i mod W)%nat ∧
  navigation_y (H, W) !! i = Some (i / W)%nat ∧
  ∀ j, (j < H * W)%nat →
       navigation_x (H, W) !! j = navigation_x (H, W) !! i →
       navigation_y (H, W) !! j = navigation_y (H, W) !! i →
       j = i.
Proof.
  intros Hi.
  assert (HW : (0 < W)%nat) by (destruct W; lia).
  assert (Hat : ∀ k, (k < H * W)%nat →
            navigation_x (H, W) !! k = Some (k mod W)%nat ∧
            navigation_y (H, W) !! k = Some (k / W)%nat).
  { intros k Hk.
    assert (Hx : (k mod W < W)%nat) by (apply Nat.mod_upper_bound; lia).
    assert (Hy : (k / W < H)%nat) by (apply Nat.Div0.div_lt_upper_bound; lia).
    pose proof (Nat.div_mod_eq k W) as Hdm.
    replace k with (k / W * W + k mod W)%nat at 1 3 by lia.
    split; [by apply navigation_x_lookup|by apply navigation_y_lookup]. }
  destruct (Hat i Hi) as [Hx Hy]. split; [done|]. split; [done|].
  intros j Hj Hjx Hjy. destruct (Hat j Hj) as [Hx' Hy'].
  rewrite Hx, Hx' in Hjx. rewrite Hy, Hy' in Hjy. simplify_eq.
  rewrite (Nat.div_mod_eq j W), (Nat.div_mod_eq i W). congruence.
Qed.

Lemma coordinates_of_flat_index_witness :
  (5 < 2 * 3)%nat ∧
  navigation_x (2%nat, 3%nat) !! 5%nat = Some 2%nat ∧
  navigation_y (2%nat, 3%nat) !! 5%nat = Some 1%nat.
Proof.
  split; [lia|].
  destruct (coordinates_of_flat_index 2 3 5) as (Hx & Hy & _); [lia|].
  by split.
Defined.

(** ** The reducer beyond the claims *)

(** X12: The unwrapping of line 54 makes the wrapping array transparent: a
    MatchSet gives the same dictionary and the same result whether it
    comes bare or wrapped, unless it has exactly one candidate, and a
    bare one-candidate array never gets through, whatever the helper. *)
Theorem wrapping_is_transparent (nth_best : nth_best_solver)
    (ms : list MatchCandidate) :
  (length ms ≠ 1%nat →
   run_reducer nth_best (flat ms) = run_reducer nth_best (wrapped ms)) ∧
  (∀ m, ms = [m] → raises (crystal_from_vector_matching nth_best (flat ms))).
Proof.
  split.
  - intros Hlen.
    unfold run_reducer, crystal_from_vector_matching_body, select.
    by rewrite (unwrap_flat ms Hlen), unwrap_wrapped.
  - intros m ->. apply lone_record_raises.
Qed.

(** What a returning call has chosen and built, with the helper as the
    spec has it. *)
Lemma reducer_returned ms z r :
  presents z ms →
  crystal_from_vector_matching get_nth_best_solution z = Ok r →
  ∃ b s d,
    first_min ms = Some b ∧
    selection get_nth_best_solution z = Ok (b, s) ∧
    s ∈ ms ∧ phase_index s = phase_index b ∧
    r = {| res_phase := phase_index b;
           res_euler := rad2deg_mat2euler (rotation_matrix b) "rzxz";
           res_metrics := with_orientation b s d |} ∧
    ((filter (λ m, phase_index m ≠ phase_index b) ms = [] ∧ d = base_metrics b) ∨
     (∃ c, first_min (filter (λ m, phase_index m ≠ phase_index b) ms) = Some c ∧
           ¬ total_error c == 0 ∧
           d = <["phase_reliability" :=
                   MFloat (100 * (1 - total_error b / total_error c))]>
                 (base_metrics b))).
Proof.
  intros Hz Hr.
  destruct (presents_cases _ _ Hz) as [(m & -> & ->)|Hu].
  { destruct (lone_record_raises get_nth_best_solution m) as [e He]. congruence. }
  pose proof (select_pool _ _ Hu) as Hsel.
  unfold crystal_from_vector_matching in Hr. unfold selection.
  rewrite <- !head_sorted_first_min.
  destruct (head (sorted ms)) as [b|] eqn:Hb;
    [|rewrite (run_reducer_select_raises _ _ _ _ Hsel) in Hr; done].
  simpl in Hsel.
  destruct (head (sorted (filter (λ m, phase_index m ≠ phase_index b) ms)))
    as [c|] eqn:Hc.
  - destruct (Qeq_bool (total_error c) 0) eqn:E0;
      [rewrite (run_reducer_select_raises _ _ _ _ Hsel) in Hr; done|].
    destruct (sorted (filter (λ m, phase_index m = phase_index b) ms) !! 1%nat)
      as [s|] eqn:Hs;
      [|rewrite (run_reducer_select_raises _ _ _ _ Hsel) in Hr; done].
    rewrite (run_reducer_after_select _ _ _ _ _ Hsel) in Hr. simpl in Hr.
    apply list_elem_of_lookup_2 in Hs. apply (proj1 (sorted_elem_of _ _)) in Hs.
    apply list_elem_of_filter in Hs as [Hphase Hin].
    exists b, s. eexists. rewrite Hsel. simpl.
    split; [done|]. split; [done|]. split; [done|]. split; [done|].
    split; [by simplify_eq|]. right. exists c.
    rewrite <- head_sorted_first_min.
    split; [done|]. split; [|done]. by apply Qeq_bool_neq.
  - apply head_sorted_None in Hc.
    destruct (sorted ms !! 1%nat) as [s|] eqn:Hs;
      [|rewrite (run_reducer_select_raises _ _ _ _ Hsel) in Hr; done].
    rewrite (run_reducer_after_select _ _ _ _ _ Hsel) in Hr. simpl in Hr.
    apply list_elem_of_lookup_2 in Hs. apply (proj1 (sorted_elem_of _ _)) in Hs.
    assert (Hphase : phase_index s = phase_index b).
    { rewrite <- (filter_same_phase_all _ _ Hc) in Hs.
      by apply list_elem_of_filter in Hs as [? _]. }
    exists b, s. eexists. rewrite Hsel. simpl.
    split; [done|]. split; [done|]. split; [done|]. split; [done|].
    split; [by simplify_eq|]. by left.
Qed.

(** X14: The candidate that [orientation_reliability] is measured against is a
    candidate of the best candidate's own phase, and not a better one. *)
Theorem second_match_same_phase (ms : list MatchCandidate) (z : list pyval)
    (r : PixelResult) :
  presents z ms →
  crystal_from_vector_matching get_nth_best_solution z = Ok r →
  ∃ best second,
    selection get_nth_best_solution z = Ok (best, second) ∧
    minimal_in ms best ∧ second ∈ ms ∧
    phase_index second = phase_index best ∧
    res_phase r = phase_index best ∧
    total_error best <= total_error second.
Proof.
  intros Hz Hr.
  destruct (reducer_returned _ _ _ Hz Hr)
    as (b & s & d & Hb & Hsel & Hs & Hphase & -> & _).
  rewrite <- head_sorted_first_min in Hb.
  pose proof (head_sorted_minimal _ _ Hb) as Hmin.
  exists b, s. repeat split; try done; by apply Hmin.
Qed.

Lemma second_match_same_phase_witness :
  presents (wrapped scenario_A) scenario_A ∧
  ∃ r best second,
    crystal_from_vector_matching get_nth_best_solution (wrapped scenario_A) = Ok r ∧
    selection get_nth_best_solution (wrapped scenario_A) = Ok (best, second) ∧
    phase_index second = phase_index best ∧
    total_error best <= total_error second.
Proof.
  assert (Hz : presents (wrapped scenario_A) scenario_A) by (right; reflexivity).
  split; [exact Hz|].
  destruct (crystal_from_vector_matching get_nth_best_solution (wrapped scenario_A))
    as [r|e] eqn:E; [|vm_compute in E; discriminate].
  destruct (second_match_same_phase scenario_A (wrapped scenario_A) r Hz E)
    as (best & second & Hsel & _ & _ & Hphase & _ & Hle).
  by exists r, best, second.
Defined.

(** X13: The call returns whenever the phase of the best candidate holds at
    least two candidates and the best candidate of the other phases, if
    there is one, has a non-zero error; the result then is of the best
    candidate's phase, carries [phase_reliability] with the value of the
    formula when another phase is present and lacks the key when none is.
    The call raises whenever the best candidate is the only one of its
    phase. *)
Theorem reducer_returns_when (ms : list MatchCandidate) (z : list pyval)
    (b : MatchCandidate) :
  presents z ms →
  first_min ms = Some b →
  ((2 ≤ length (filter (λ m, phase_index m = phase_index b) ms))%nat →
   (∀ c, first_min (filter (λ m, phase_index m ≠ phase_index b) ms) = Some c →
         ¬ total_error c == 0) →
   ∃ r, crystal_from_vector_matching get_nth_best_solution z = Ok r ∧
        res_phase r = phase_index b ∧
        (single_phase ms → res_metrics r !! "phase_reliability" = None) ∧
        (∀ c, first_min (filter (λ m, phase_index m ≠ phase_index b) ms) = Some c →
              res_metrics r !! "phase_reliability" =
                Some (MFloat (100 * (1 - total_error b / total_error c))))) ∧
  (length (filter (λ m, phase_index m = phase_index b) ms) = 1%nat →
   raises (crystal_from_vector_matching get_nth_best_solution z)).
Proof.
  intros Hz Hb. pose proof Hb as Hhead.
  rewrite <- head_sorted_first_min in Hhead.
  split; [|by apply (lone_best_phase_raises ms z b)].
  intros Hlen Hcross.
  assert (Hret : ∃ r, crystal_from_vector_matching get_nth_best_solution z = Ok r).
  { destruct (presents_cases _ _ Hz) as [(m & -> & ->)|Hu].
    { simpl in Hhead. simplify_eq.
      rewrite filter_cons_True in Hlen by done. simpl in Hlen. lia. }
    pose proof (select_pool _ _ Hu) as Hsel. rewrite Hhead in Hsel. simpl in Hsel.
    unfold crystal_from_vector_matching.
    destruct (head (sorted (filter (λ m, phase_index m ≠ phase_index b) ms)))
      as [c|] eqn:Hc.
    - rewrite head_sorted_first_min in Hc.
      destruct (Qeq_bool (total_error c) 0) eqn:E0.
      { apply Qeq_bool_eq in E0. by destruct (Hcross c Hc). }
      destruct (lookup_lt_is_Some_2
                  (sorted (filter (λ m, phase_index m = phase_index b) ms)) 1)
        as [s Hs]; [rewrite sorted_length; lia|].
      rewrite Hs in Hsel.
      rewrite (run_reducer_after_select _ _ _ _ _ Hsel). by eexists.
    - apply head_sorted_None in Hc.
      rewrite (filter_same_phase_all _ _ Hc) in Hlen.
      destruct (lookup_lt_is_Some_2 (sorted ms) 1) as [s Hs];
        [rewrite sorted_length; lia|].
      rewrite Hs in Hsel.
      rewrite (run_reducer_after_select _ _ _ _ _ Hsel). by eexists. }
  destruct Hret as [r Hr]. exists r. split; [done|].
  destruct (reducer_returned _ _ _ Hz Hr)
    as (b' & s & d & Hb' & _ & _ & _ & -> & Hd).
  assert (b' = b) by congruence. subst b'. simpl.
  unfold with_orientation. split; [done|].
  rewrite lookup_insert_ne by done. split.
  - intros Hs. destruct Hd as [[_ ->]|(c & Hc & _ & _)]; [done|].
    rewrite single_phase_other in Hc; [done|done|].
    by apply (head_sorted_minimal _ _ Hhead).
  - intros c Hc. destruct Hd as [[Hnil _]|(c' & Hc' & _ & ->)].
    + rewrite Hnil in Hc. done.
    + assert (c' = c) by congruence. subst c'. apply lookup_insert_eq.
Qed.

Lemma reducer_returns_when_witness :
  presents (wrapped scenario_A) scenario_A ∧
  first_min scenario_A = Some (candidate 0 0.10) ∧
  ∃ r, crystal_from_vector_matching get_nth_best_solution (wrapped scenario_A) = Ok r ∧
       res_phase r = 0%Z ∧
       res_metrics r !! "phase_reliability" = Some (MFloat (100 * (1 - 0.10 / 0.20))).
Proof.
  assert (Hz : presents (wrapped scenario_A) scenario_A) by (right; reflexivity).
  split; [exact Hz|]. split; [reflexivity|].
  destruct (reducer_returns_when scenario_A (wrapped scenario_A) (candidate 0 0.10)
              Hz eq_refl) as [Hret _].
  destruct Hret as (r & Hr & Hphase & _ & Hrel).
  - vm_compute. lia.
  - intros c Hc. vm_compute in Hc. injection Hc as <-. discriminate.
  - exists r. split; [exact Hr|]. split; [exact Hphase|].
    apply (Hrel (candidate 1 0.20)). reflexivity.
Defined.

Lemma reliability_bounds (a b : Q) :
  0 <= a → a <= b → 0 < b →
  0 <= 100 * (1 - a / b) ∧ 100 * (1 - a / b) <= 100.
Proof.
  intros Ha Hab Hb.
  assert (H0 : 0 <= a / b) by (apply Qle_shift_div_l; [done|lra]).
  assert (H1 : a / b <= 1) by (apply Qle_shift_div_r; [done|lra]).
  split; lra.
Qed.

Lemma nonneg_nonzero_pos (x : Q) : 0 <= x → ¬ x == 0 → 0 < x.
Proof.
  intros Hx Hnz. destruct (Qlt_le_dec 0 x) as [?|Hle]; [done|].
  destruct Hnz. by apply Qle_antisym.
Qed.

(** X15: With no negative error in the MatchSet and no zero error among the
    candidates of another phase than the reported one, every reliability
    a returning call reports lies between 0 and 100. *)
Theorem reliabilities_are_percentages (ms : list MatchCandidate)
    (z : list pyval) (r : PixelResult) :
  presents z ms →
  (∀ m, m ∈ ms → 0 <= total_error m) →
  (∀ m, m ∈ ms → phase_index m ≠ res_phase r → ¬ total_error m == 0) →
  crystal_from_vector_matching get_nth_best_solution z = Ok r →
  (∃ v, res_metrics r !! "orientation_reliability" = Some (MFloat v) ∧
        0 <= v ∧ v <= 100) ∧
  (∀ p, res_metrics r !! "phase_reliability" = Some p →
        ∃ u, p = MFloat u ∧ 0 <= u ∧ u <= 100).
Proof.
  intros Hz Hpos Hother Hr.
  destruct (reducer_returned _ _ _ Hz Hr)
    as (b & s & d & Hb & _ & Hs & _ & -> & Hd).
  rewrite <- head_sorted_first_min in Hb.
  destruct (head_sorted_minimal _ _ Hb) as [Hbin Hmin].
  simpl in *. unfold with_orientation. split.
  - rewrite lookup_insert_eq. eexists. split; [done|].
    pose proof (Hpos b Hbin) as Hb0. pose proof (Hpos s Hs) as Hs0.
    pose proof (Hmin s Hs) as Hbs.
    unfold py_or. destruct (Qeq_bool (total_error s) 0) eqn:E0.
    + apply Qeq_bool_eq in E0. apply reliability_bounds; lra.
    + apply Qeq_bool_neq in E0.
      apply reliability_bounds; [done|done|by apply nonneg_nonzero_pos].
  - intros p Hp. rewrite lookup_insert_ne in Hp by done.
    destruct Hd as [[_ ->]|(c & Hc & _ & ->)]; [done|].
    rewrite lookup_insert_eq in Hp. simplify_eq. eexists. split; [done|].
    rewrite <- head_sorted_first_min in Hc.
    destruct (head_sorted_minimal _ _ Hc) as [Hcin _].
    apply list_elem_of_filter in Hcin as [Hcphase Hcin].
    apply reliability_bounds; [by apply Hpos|by apply Hmin|].
    apply nonneg_nonzero_pos; [by apply Hpos|by apply Hother].
Qed.

Lemma reliabilities_are_percentages_witness :
  presents (wrapped scenario_A) scenario_A ∧
  (∀ m, m ∈ scenario_A → 0 <= total_error m) ∧
  ∃ r, crystal_from_vector_matching get_nth_best_solution (wrapped scenario_A) = Ok r ∧
       (∃ v, res_metrics r !! "orientation_reliability" = Some (MFloat v) ∧
             0 <= v ∧ v <= 100) ∧
       (∀ p, res_metrics r !! "phase_reliability" = Some p →
             ∃ u, p = MFloat u ∧ 0 <= u ∧ u <= 100).
Proof.
  assert (Hz : presents (wrapped scenario_A) scenario_A) by (right; reflexivity).
  assert (Hpos : ∀ m, m ∈ scenario_A → 0 < total_error m).
  { intros m Hm. unfold scenario_A in Hm.
    repeat (apply elem_of_cons in Hm as [->|Hm]; [simpl; lra|]).
    by apply elem_of_nil in Hm. }
  split; [exact Hz|].
  split; [intros m Hm; apply Qlt_le_weak; by apply Hpos|].
  destruct (crystal_from_vector_matching get_nth_best_solution (wrapped scenario_A))
    as [r|e] eqn:E; [|vm_compute in E; discriminate].
  exists r. split; [reflexivity|].
  apply (reliabilities_are_percentages scenario_A (wrapped scenario_A) r Hz).
  - intros m Hm. apply Qlt_le_weak. by apply Hpos.
  - intros m Hm _ H0. pose proof (Hpos m Hm) as Hlt. rewrite H0 in Hlt.
    by apply (Qlt_irrefl 0).
  - exact E.
Defined.

(** X16: Everything a returning call reports comes from one candidate, the
    first of minimal error: the phase, the rotation behind the Euler
    angles and the three base metrics; and the dict holds no key beyond
    the five the function writes. *)
Theorem result_reports_best (ms : list MatchCandidate) (z : list pyval)
    (r : PixelResult) :
  presents z ms →
  crystal_from_vector_matching get_nth_best_solution z = Ok r →
  ∃ b, first_min ms = Some b ∧
       res_phase r = phase_index b ∧
       res_euler r = rad2deg_mat2euler (rotation_matrix b) "rzxz" ∧
       res_metrics r !! "match_rate" = Some (MFloat (match_rate b)) ∧
       res_metrics r !! "ehkls" = Some (MArray (error_hkls b)) ∧
       res_metrics r !! "total_error" = Some (MFloat (total_error b)) ∧
       ∀ k, is_Some (res_metrics r !! k) → k ∈ metric_keys.
Proof.
  intros Hz Hr.
  destruct (reducer_returned _ _ _ Hz Hr)
    as (b & s & d & Hb & _ & _ & _ & -> & Hd).
  exists b. simpl. unfold with_orientation, metric_keys.
  split; [done|]. split; [done|]. split; [done|].
  destruct Hd as [[_ ->]|(c & _ & _ & ->)]; unfold base_metrics;
    (split; [done|]); (split; [done|]); (split; [done|]);
    intros k [v Hv];
    repeat (apply lookup_insert_Some in Hv as [[<- _]|[_ Hv]];
            [set_solver|]);
    by rewrite lookup_empty in Hv.
Qed.

Lemma result_reports_best_witness :
  presents (wrapped scenario_A) scenario_A ∧
  ∃ r, crystal_from_vector_matching get_nth_best_solution (wrapped scenario_A) = Ok r ∧
       res_phase r = 0%Z ∧
       res_metrics r !! "total_error" = Some (MFloat 0.10).
Proof.
  assert (Hz : presents (wrapped scenario_A) scenario_A) by (right; reflexivity).
  split; [exact Hz|].
  destruct (crystal_from_vector_matching get_nth_best_solution (wrapped scenario_A))
    as [r|e] eqn:E; [|vm_compute in E; discriminate].
  exists r. split; [reflexivity|].
  destruct (result_reports_best scenario_A (wrapped scenario_A) r Hz E)
    as (b & Hb & Hphase & _ & _ & _ & Herr & _).
  vm_compute in Hb. injection Hb as <-. by split.
Defined.

(** ** Attaching Miller indices, beyond the claims *)

Lemma alter_set_hkls_twice (h h' : option nat) (v : nat)
    (m : gmap nat DiffractionVectors) :
  alter (set_hkls h) v (alter (set_hkls h') v m) = alter (set_hkls h) v m.
Proof.
  apply map_eq. intros i. destruct (decide (v = i)) as [->|Hne].
  - rewrite !lookup_alter_eq. by destruct (m !! i).
  - by rewrite !lookup_alter_ne.
Qed.

(** X17: Whatever [overwrite] is and whatever the world holds, the call
    changes nothing but the [hkls] of the object it was passed: every
    other object, the target's peaks and the count of data reads stay,
    and warnings are only appended.  An [overwrite] that is neither
    [True] nor [False] changes nothing at all. *)
Theorem indexing_touches_only_hkls
    (self : VectorMatchingResults) (vectors : nat) (overwrite : overwrite_arg)
    (w : world) :
  let w' := (get_indexed_diffraction_vectors self vectors overwrite w).1 in
  (∀ v, v ≠ vectors → objects w' !! v = objects w !! v) ∧
  peaks <$> objects w' !! vectors = peaks <$> objects w !! vectors ∧
  data_reads w' = data_reads w ∧
  (∃ extra, warnings w' = warnings w ++ extra) ∧
  (overwrite = PyOther →
   get_indexed_diffraction_vectors self vectors overwrite w = (w, Ok vectors)).
Proof.
  assert (Hcases :
    (get_indexed_diffraction_vectors self vectors overwrite w).1 = w ∨
    (get_indexed_diffraction_vectors self vectors overwrite w).1
      = (setattr_hkls vectors (vm_hkls self) w).1 ∨
    (get_indexed_diffraction_vectors self vectors overwrite w).1
      = (warn already_indexed_msg w).1).
  { unfold get_indexed_diffraction_vectors, getattr_hkls. unfold_monad.
    destruct overwrite; simpl; [|by right; left|by left].
    destruct (objects w !! vectors) as [o|]; simpl; [|by left].
    destruct (hkls o); simpl; [by right; right|by right; left]. }
  intros w'. split; [|split; [|split; [|split]]].
  - intros v Hv. subst w'. destruct Hcases as [->|[->| ->]]; simpl; try done.
    by rewrite lookup_alter_ne.
  - subst w'. destruct Hcases as [->|[->| ->]]; simpl; try done.
    rewrite lookup_alter_eq. by destruct (objects w !! vectors).
  - subst w'. by destruct Hcases as [->|[->| ->]].
  - subst w'. destruct Hcases as [->|[->| ->]]; simpl.
    + exists []. by rewrite app_nil_r.
    + exists []. by rewrite app_nil_r.
    + by eexists.
  - by intros ->.
Qed.

(** X18: Of two overwriting calls in a row the second decides; in particular
    repeating a call with [overwrite=True] changes nothing further. *)
Theorem overwrite_last_wins
    (first second : VectorMatchingResults) (vectors : nat) (w : world) :
  (get_indexed_diffraction_vectors first vectors PyTrue ;;;
   get_indexed_diffraction_vectors second vectors PyTrue) w =
  get_indexed_diffraction_vectors second vectors PyTrue w.
Proof.
  unfold get_indexed_diffraction_vectors, setattr_hkls. unfold_monad. simpl.
  by rewrite alter_set_hkls_twice.
Qed.

(** X19: Without [overwrite=True] the first assignment sticks: once a call has
    attached Miller indices to a target that had none, a later call, from
    whatever results object, leaves them in place and warns. *)
Theorem first_assignment_sticks
    (first second : VectorMatchingResults) (vectors : nat) (w : world)
    (o : DiffractionVectors) (h : nat) :
  objects w !! vectors = Some o →
  hkls o = None →
  vm_hkls first = Some h →
  ∃ w', (get_indexed_diffraction_vectors first vectors PyFalse ;;;
         get_indexed_diffraction_vectors second vectors PyFalse) w
          = (w', Ok vectors) ∧
        objects w' !! vectors = Some (set_hkls (Some h) o) ∧
        warnings w' = warnings w ++ [already_indexed_msg].
Proof.
  intros Ho Hnone Hfirst.
  unfold get_indexed_diffraction_vectors, getattr_hkls, setattr_hkls, warn.
  unfold_monad. rewrite Ho, Hnone. simpl.
  rewrite lookup_alter_eq, Ho. simpl. rewrite Hfirst.
  eexists. split; [reflexivity|]. simpl.
  by rewrite lookup_alter_eq, Ho.
Qed.

Lemma first_assignment_sticks_witness :
  objects (world_of fresh_vectors) !! 0%nat = Some fresh_vectors ∧
  ∃ w', (get_indexed_diffraction_vectors results_with_hkls 0 PyFalse ;;;
         get_indexed_diffraction_vectors (VectorMatchingResults_init (1%nat, 1%nat) []) 0 PyFalse)
          (world_of fresh_vectors) = (w', Ok 0%nat) ∧
        objects w' !! 0%nat = Some (set_hkls (Some 3%nat) fresh_vectors) ∧
        warnings w' = [already_indexed_msg].
Proof.
  split; [vm_compute; reflexivity|].
  apply (first_assignment_sticks results_with_hkls
           (VectorMatchingResults_init (1%nat, 1%nat) []) 0
           (world_of fresh_vectors) fresh_vectors 3).
  - vm_compute; reflexivity.
  - reflexivity.
  - reflexivity.
Defined.

(** X20: A results object as the constructor leaves it has no Miller indices
    of its own: used with [overwrite=True] it leaves the target with
    [hkls] being [None], whatever the target held, and used without it on
    a target that has none it changes nothing, so that no later call
    warns. *)
Theorem fresh_results_erase_hkls
    (shape : nat * nat) (data : list (list pyval)) (vectors : nat) (w : world)
    (o : DiffractionVectors) :
  objects w !! vectors = Some o →
  let fresh := VectorMatchingResults_init shape data in
  (∃ w' o',
     get_indexed_diffraction_vectors fresh vectors PyTrue w = (w', Ok vectors) ∧
     objects w' !! vectors = Some o' ∧
     hkls o' = None ∧ peaks o' = peaks o ∧
     warnings w' = warnings w) ∧
  (hkls o = None →
   ∃ w', (get_indexed_diffraction_vectors fresh vectors PyFalse ;;;
          get_indexed_diffraction_vectors fresh vectors PyFalse) w = (w', Ok vectors) ∧
         objects w' !! vectors = Some o ∧
         warnings w' = warnings w).
Proof.
  intros Ho fresh. split.
  - unfold get_indexed_diffraction_vectors, setattr_hkls. unfold_monad.
    eexists _, (set_hkls None o). split; [reflexivity|]. simpl.
    by rewrite lookup_alter_eq, Ho.
  - intros Hnone.
    unfold get_indexed_diffraction_vectors, getattr_hkls, setattr_hkls, warn.
    unfold_monad. rewrite Ho, Hnone. simpl.
    rewrite lookup_alter_eq, Ho. simpl.
    eexists. split; [reflexivity|]. simpl.
    rewrite alter_set_hkls_twice, lookup_alter_eq, Ho. simpl.
    split; [|done]. destruct o as [ho po]. simpl in Hnone. by subst.
Qed.

Lemma fresh_results_erase_hkls_witness :
  objects (world_of indexed_vectors) !! 0%nat = Some indexed_vectors ∧
  ∃ w' o',
    get_indexed_diffraction_vectors
      (VectorMatchingResults_init (1%nat, 1%nat) []) 0 PyTrue
      (world_of indexed_vectors) = (w', Ok 0%nat) ∧
    objects w' !! 0%nat = Some o' ∧
    hkls indexed_vectors = Some 7%nat ∧ hkls o' = None ∧
    warnings w' = [].
Proof.
  split; [vm_compute; reflexivity|].
  destruct (fresh_results_erase_hkls (1%nat, 1%nat) [] 0
              (world_of indexed_vectors) indexed_vectors)
    as [(w' & o' & Hrun & Ho' & Hh & _ & Hw) _]; [vm_compute; reflexivity|].
  exists w', o'. by repeat split.
Defined.
